(** * Dart69: prime sieves, trial division and the wheel-of-69 filters

    A shallow embedding of the computational kernel of the Dart69 scripts:

    - [prime_verification_for_Trinity.py] and [trinity_grouping_analysis.py]:
      the sieve of Eratosthenes, the precomputed prime set and the
      trial-division fallback;
    - [dart69_prime_checker.py], [Prime Checker 2 DART_69_Optimized.py]:
      wheel positions, forbidden positions and the two prechecks;
    - [dart69_python_sieve (1).py]: the angular + digit filter, the 6k±1
      primality test and the scanning loop of [sieve_dimension];
    - [Large_Prime_number_Generator.py]: the generation of candidates by
      allowed wheel position, followed by a sort.

    Python integers are unbounded, so they are modelled by [Z]; [%] with a
    positive right operand is the floor remainder, which is [Z.modulo].
    Lists are [list]; a list used as an array is read with stdpp's lookup and
    written with stdpp's insert; [set] is [gset Z].

    Floating point.  A call returns a value or raises, so a function that
    can raise returns an [outcome].
    - [int(math.sqrt(n))] is computed as Python computes it, on IEEE 754
      binary64 numbers (Stdlib's [SpecFloat]): the integer is rounded to the
      nearest float (an [OverflowError] when it is too large), the square
      root is correctly rounded, and [int] truncates.  Where a theorem needs
      the result to be the integer square root, it says so.
    - [n ** 0.5] is the C library's [pow], which is not correctly rounded:
      the function [pow_half] on floats is a parameter of the definitions
      that use it.  In the sieve, whose table has [n + 1] entries,
      [int(n ** 0.5)] is read as the integer square root [Z.sqrt n].
    - [math.floor(pi ** d)] is a parameter [floor_pi_pow] of the definitions
      that use π-dimensions.

    Printing and timing are left out, except for the divisions by an
    elapsed time, which is then a parameter.  The interpreter's optional
    limit on the length of an integer converted to text is not modelled. *)

From Stdlib Require Import ZArith Zdivisibility Lia.
From Stdlib Require Floats.SpecFloat.
From stdpp Require Import base numbers list list_numbers sorting gmap.

Local Open Scope Z_scope.

(** ** Python's [range] *)

Module PyRange.

(** [range(lo, hi)] *)
Definition range (lo hi : Z) : list Z := seqZ lo (hi - lo).

(** [range(lo, hi, step)] for a positive [step]: its length is
    [ceil((hi - lo) / step)] when positive, and its k-th element
    [lo + k * step]. *)
Definition range_step (lo hi step : Z) : list Z :=
  (λ k, lo + k * step) <$> seqZ 0 ((hi - lo + step - 1) `div` step).

Lemma elem_of_range lo hi k : k ∈ range lo hi ↔ lo ≤ k < hi.
Proof. unfold range. rewrite elem_of_seqZ. lia. Qed.

Lemma range_nil lo hi : hi ≤ lo → range lo hi = [].
Proof. intros. apply seqZ_nil. lia. Qed.

Lemma range_cons lo hi : lo < hi → range lo hi = lo :: range (lo + 1) hi.
Proof.
  intros. unfold range. rewrite seqZ_cons by lia.
  do 2 f_equal; lia.
Qed.

Lemma range_snoc lo hi : lo ≤ hi → range lo (hi + 1) = range lo hi ++ [hi].
Proof.
  intros. unfold range.
  replace (hi + 1 - lo) with ((hi - lo) + 1) by lia.
  rewrite seqZ_app by lia. f_equal.
  rewrite seqZ_cons by lia. rewrite seqZ_nil by lia. f_equal. lia.
Qed.

Lemma elem_of_range_step lo hi step j :
  0 < step →
  j ∈ range_step lo hi step ↔ lo ≤ j < hi ∧ (j - lo) `mod` step = 0.
Proof.
  intros Hs. unfold range_step. rewrite list_elem_of_fmap.
  setoid_rewrite elem_of_seqZ. split.
  - intros (k & -> & Hk).
    pose proof (Z.mul_div_le (hi - lo + step - 1) step Hs) as Hq.
    assert (step * (k + 1) ≤ step * ((hi - lo + step - 1) `div` step)) as Hk1
      by (apply Z.mul_le_mono_nonneg_l; lia).
    assert (0 ≤ k * step) by (apply Z.mul_nonneg_nonneg; lia).
    split; [lia|].
    replace (lo + k * step - lo) with (k * step) by lia.
    apply Z_mod_mult.
  - intros ([Hlo Hhi] & Hm).
    exists ((j - lo) `div` step).
    pose proof (Z_div_mod_eq_full (j - lo) step) as Hd.
    rewrite Hm in Hd.
    split; [lia|].
    split; [apply Z.div_pos; lia|].
    simpl. apply Z.div_lt_upper_bound; [lia|].
    pose proof (Z.mul_succ_div_gt (hi - lo + step - 1) step Hs) as Hq.
    rewrite Z.mul_succ_r in Hq. lia.
Qed.

Lemma StronglySorted_range lo hi : StronglySorted Z.lt (range lo hi).
Proof.
  unfold range. remember (Z.to_nat (hi - lo)) as len eqn:Hlen.
  revert lo Hlen. induction len as [|len IH]; intros lo Hlen.
  - rewrite seqZ_nil by lia. constructor.
  - rewrite seqZ_cons by lia. constructor.
    + replace (Z.pred (hi - lo)) with (hi - Z.succ lo) by lia.
      apply IH. lia.
    + apply Forall_seqZ. lia.
Qed.

End PyRange.

(** ** Primality by divisors up to the square root *)

Module Divisors.

(** [k] has no divisor [d] with [2 ≤ d < m] other than itself. *)
Definition no_small_divisor (m k : Z) : Prop :=
  ∀ d, 2 ≤ d < m → d < k → ¬ (d | k).

(** [k] has no divisor [d ≥ 2] with [d² ≤ k]. *)
Definition no_divisor_upto_sqrt (k : Z) : Prop :=
  ∀ d, 2 ≤ d → d * d ≤ k → ¬ (d | k).

Lemma prime_no_divisor_upto_sqrt k : Z.prime k → no_divisor_upto_sqrt k.
Proof.
  intros [Hk Hp] d Hd Hdd Hdiv. apply (Hp d); [nia|done].
Qed.

Lemma no_divisor_upto_sqrt_prime k :
  2 ≤ k → no_divisor_upto_sqrt k → Z.prime k.
Proof.
  intros Hk Hno. split; [lia|].
  intros d Hd Hdiv. pose proof Hdiv as [c Hc].
  assert (1 < c) by nia.
  destruct (Z_le_gt_dec (d * d) k) as [Hle|Hgt].
  - apply (Hno d); [lia|done|done].
  - apply (Hno c); [lia|nia|].
    exists d. lia.
Qed.

Lemma prime_iff_no_divisor_upto_sqrt k :
  Z.prime k ↔ 2 ≤ k ∧ no_divisor_upto_sqrt k.
Proof.
  split.
  - intros Hp. split; [destruct Hp; lia|by apply prime_no_divisor_upto_sqrt].
  - intros [? ?]. by apply no_divisor_upto_sqrt_prime.
Qed.

Lemma sqrt_bound d k : 0 ≤ d → 0 ≤ k → d * d ≤ k ↔ d ≤ Z.sqrt k.
Proof.
  intros Hd Hk. pose proof (Z.sqrt_spec k Hk) as [Hlo Hhi]. split.
  - intros Hdd. destruct (Z_le_gt_dec d (Z.sqrt k)); [done|].
    assert (Z.succ (Z.sqrt k) ≤ d) by lia. nia.
  - intros Hle. pose proof (Z.sqrt_nonneg k). nia.
Qed.

(** Not dividing, as the code tests it: [k % d != 0]. *)
Lemma mod_divide_iff k d : d ≠ 0 → k `mod` d = 0 ↔ (d | k).
Proof. intros. split; [by apply Z.mod_divide|by apply Z.mod_divide]. Qed.

End Divisors.

(** ** The sieve of Eratosthenes

  [PrimeVerificationSuite._sieve_of_eratosthenes]
  (prime_verification_for_Trinity.py) and [sieve_of_eratosthenes]
  (trinity_grouping_analysis.py) have the same body. *)

Module Sieve.
Import PyRange Divisors.

(** [sieve[i]]; every index the code reads lies inside the table. *)
Definition flag (sieve : list bool) (i : Z) : bool :=
  default false (sieve !! Z.to_nat i).

(** [for j in range(i*i, n + 1, i): sieve[j] = False] *)
Definition strike (sieve : list bool) (js : list Z) : list bool :=
  foldl (λ s j, <[Z.to_nat j := false]> s) sieve js.

(** The body of the outer loop. *)
Definition sieve_step (n : Z) (sieve : list bool) (i : Z) : list bool :=
  if flag sieve i then strike sieve (range_step (i * i) (n + 1) i) else sieve.

(** [sieve = [True] * (n + 1); sieve[0] = sieve[1] = False] *)
Definition sieve_init (n : Z) : list bool :=
  <[1%nat := false]> (<[0%nat := false]> (replicate (Z.to_nat (n + 1)) true)).

(** The table after the outer loop
    [for i in range(2, int(n**0.5) + 1)]. *)
Definition sieve_table (n : Z) : list bool :=
  foldl (sieve_step n) (sieve_init n) (range 2 (Z.sqrt n + 1)).

Definition sieve_of_eratosthenes (n : Z) : list Z :=
  if n <? 2 then []
  else filter (λ i, flag (sieve_table n) i = true) (range 2 (n + 1)).

(** *** Striking *)

Lemma flag_insert_false s j k :
  0 ≤ j → 0 ≤ k →
  flag (<[Z.to_nat j := false]> s) k = true ↔ flag s k = true ∧ k ≠ j.
Proof.
  intros Hj Hk. unfold flag.
  destruct (decide (k = j)) as [->|Hne].
  - destruct (decide (Z.to_nat j < length s)%nat).
    + rewrite list_lookup_insert_eq by done. simpl.
      split; [done|intros [_ Hne]; by destruct Hne].
    + rewrite list_insert_ge by lia. rewrite lookup_ge_None_2 by lia. simpl.
      split; [done|intros [? _]; done].
  - rewrite list_lookup_insert_ne by lia. split; [done|by intros [? _]].
Qed.


Lemma flag_strike s js k :
  Forall (λ j, 0 ≤ j) js → 0 ≤ k →
  flag (strike s js) k = true ↔ flag s k = true ∧ k ∉ js.
Proof.
  unfold strike. intros Hjs Hk. revert s.
  induction Hjs as [|j js Hj Hjs IH]; intros s; simpl.
  - split; [intros ?; split; [done|by intros ?%elem_of_nil]|by intros [? _]].
  - rewrite IH, flag_insert_false, not_elem_of_cons by done. tauto.
Qed.




(** Every index written by the inner loop lies in the table: the
    assignment [sieve[j] = False] never raises. *)
Lemma strike_indices_in_range n i j :
  0 < i → j ∈ range_step (i * i) (n + 1) i → 0 ≤ j ≤ n.
Proof. intros Hi Hj. apply elem_of_range_step in Hj; [nia|done]. Qed.

(** *** The invariant of the outer loop *)

Definition sieve_inv (n m : Z) (s : list bool) : Prop :=
  ∀ k, 0 ≤ k ≤ n → flag s k = true ↔ 2 ≤ k ∧ no_small_divisor m k.

Lemma sieve_inv_init n : sieve_inv n 2 (sieve_init n).
Proof.
  intros k Hk. unfold sieve_init.
  change 1%nat with (Z.to_nat 1). change 0%nat with (Z.to_nat 0).
  rewrite !flag_insert_false by lia.
  unfold flag. rewrite lookup_replicate_2 by lia. simpl.
  unfold no_small_divisor. split.
  - intros [[_ ?] ?]. split; [lia|]. intros d ?. lia.
  - intros [? _]. split; [split; [done|lia]|lia].
Qed.

Lemma sieve_inv_step n m s :
  2 ≤ m ≤ n → sieve_inv n m s → sieve_inv n (m + 1) (sieve_step n s m).
Proof.
  intros Hm Hinv k Hk. unfold sieve_step.
  destruct (flag s m) eqn:Hfm.
  - (* m is prime: its multiples from m² on are struck *)
    rewrite flag_strike; [|apply Forall_forall; intros j Hj;
      apply strike_indices_in_range in Hj; lia|lia].
    rewrite elem_of_range_step by lia. rewrite (Hinv k Hk). split.
    + intros ((Hk2 & Hno) & Hns). split; [done|].
      intros d Hd Hdk Hdiv.
      destruct (decide (d = m)) as [->|Hdm]; [|apply (Hno d); [lia|done|done]].
      destruct Hdiv as [c Hc].
      destruct (Z_le_gt_dec m c) as [Hmc|Hmc].
      * apply Hns. split; [nia|].
        replace (k - m * m) with ((c - m) * m) by lia. apply Z_mod_mult.
      * apply (Hno c); [nia|nia|]. exists m. lia.
    + intros (Hk2 & Hno). split.
      * split; [done|]. intros d Hd. apply Hno. lia.
      * intros ([Hmk _] & Hmod). apply (Hno m); [lia|nia|].
        apply Z.mod_divide in Hmod; [|lia].
        destruct Hmod as [c Hc]. exists (c + m). lia.
  - (* m is composite: every multiple of m has a smaller divisor *)
    rewrite (Hinv k Hk). split.
    + intros (Hk2 & Hno). split; [done|].
      intros d Hd Hdk Hdiv.
      destruct (decide (d = m)) as [->|Hdm]; [|apply (Hno d); [lia|done|done]].
      assert (flag s m = true) as Hc; [|congruence].
      apply (Hinv m); [lia|]. split; [lia|].
      intros e He Hem Hediv. apply (Hno e); [lia|lia|].
      by apply Z.divide_trans with m.
    + intros (Hk2 & Hno). split; [done|]. intros d Hd. apply Hno. lia.
Qed.

Lemma sieve_inv_loop n (len : nat) m s :
  2 ≤ m → m + Z.of_nat len - 1 ≤ n → sieve_inv n m s →
  sieve_inv n (m + Z.of_nat len) (foldl (sieve_step n) s (seqZ m (Z.of_nat len))).
Proof.
  revert m s. induction len as [|len IH]; intros m s Hm Hn Hinv.
  - rewrite seqZ_nil by lia. simpl. by rewrite Z.add_0_r.
  - rewrite seqZ_cons by lia. rewrite Nat2Z.inj_succ, Z.pred_succ. simpl.
    replace (m + Z.succ (Z.of_nat len)) with (Z.succ m + Z.of_nat len) by lia.
    apply IH; [lia|lia|].
    replace (Z.succ m) with (m + 1) by lia.
    apply sieve_inv_step; [lia|done].
Qed.

Lemma sieve_table_inv n : 2 ≤ n → sieve_inv n (Z.sqrt n + 1) (sieve_table n).
Proof.
  intros Hn. unfold sieve_table, range.
  assert (1 ≤ Z.sqrt n) as Hs1 by (apply (sqrt_bound 1 n); lia).
  assert (Z.sqrt n ≤ n) as Hs2 by (apply Z.sqrt_le_lin; lia).
  replace (Z.sqrt n + 1 - 2) with (Z.of_nat (Z.to_nat (Z.sqrt n - 1))) by lia.
  replace (Z.sqrt n + 1) with (2 + Z.of_nat (Z.to_nat (Z.sqrt n - 1))) at 1 by lia.
  apply sieve_inv_loop; [lia|lia|apply sieve_inv_init].
Qed.

Lemma flag_sieve_table_prime n k :
  2 ≤ n → 0 ≤ k ≤ n → flag (sieve_table n) k = true ↔ Z.prime k.
Proof.
  intros Hn Hk. rewrite (sieve_table_inv n Hn k Hk).
  rewrite prime_iff_no_divisor_upto_sqrt. split.
  - intros (Hk2 & Hno). split; [done|].
    intros d Hd Hdd. apply Hno; [|nia].
    assert (d ≤ Z.sqrt n); [|lia].
    apply sqrt_bound; lia.
  - intros (Hk2 & Hno). split; [done|].
    intros d Hd Hdk Hdiv. pose proof Hdiv as [c Hc].
    destruct (Z_le_gt_dec (d * d) k) as [Hle|Hgt].
    + by apply (Hno d); [lia|..].
    + apply (Hno c); [nia|nia|]. exists d. lia.
Qed.

Lemma elem_of_sieve_of_eratosthenes n k :
  k ∈ sieve_of_eratosthenes n ↔ 0 ≤ k ≤ n ∧ Z.prime k.
Proof.
  unfold sieve_of_eratosthenes. destruct (Z.ltb_spec n 2) as [Hn|Hn].
  - rewrite elem_of_nil. split; [done|].
    intros [? [? _]]. lia.
  - rewrite list_elem_of_filter, elem_of_range. split.
    + intros [Hf ?]. split; [lia|]. apply (flag_sieve_table_prime n k); [lia|lia|done].
    + intros [? Hp]. pose proof Hp as [? _]. split; [|lia].
      apply (flag_sieve_table_prime n k); [lia|lia|done].
Qed.

Lemma StronglySorted_filter_lt (P : Z → Prop) `{∀ x, Decision (P x)} l :
  StronglySorted Z.lt l → StronglySorted Z.lt (filter P l).
Proof.
  induction 1 as [|x l Hl IH Hx]; [constructor|].
  rewrite filter_cons. destruct (decide (P x)); [|done].
  constructor; [done|]. rewrite Forall_forall in Hx |- *.
  intros y [_ Hy]%list_elem_of_filter. by apply Hx.
Qed.

End Sieve.

(** ** Calls that may raise *)

Module Outcome.

(** The errors the specification names, and the exceptions Python raises
    in the code modelled here. *)
Inductive error :=
  | InvalidInput | OutOfRange | InvalidFilter
  | ZeroDivisionError | OverflowError | ValueError.

(** The outcome of a call: a returned value or a raised error. *)
Inductive outcome (A : Type) :=
  | Returns (a : A)
  | Raises (e : error).
Arguments Returns {A} a.
Arguments Raises {A} e.

(** Sequencing: an error of the first call is the error of the whole. *)
#[global] Instance outcome_bind : MBind outcome :=
  λ A B f o, match o with Returns a => f a | Raises e => Raises e end.

(** A [for] loop over [l] that updates a state and whose body may raise. *)
Fixpoint for_each {A B} (body : A → B → outcome A) (a : A) (l : list B)
    : outcome A :=
  match l with
  | [] => Returns a
  | x :: l' => a' ← body a x; for_each body a' l'
  end.

(** A loop none of whose rounds raises is a fold. *)
Lemma for_each_returns {A B} (body : A → B → outcome A) (g : A → B → A) l a :
  (∀ a x, x ∈ l → body a x = Returns (g a x)) →
  for_each body a l = Returns (foldl g a l).
Proof.
  revert a. induction l as [|x l IH]; intros a Hbody; [done|].
  cbn [for_each foldl]. rewrite Hbody by left. cbn.
  apply IH. intros a' y Hy. apply Hbody. by right.
Qed.

(** An invariant of the rounds that return holds of the state a loop
    returns. *)
Lemma for_each_inv {A B} (P : A → list B → Prop)
    (body : A → B → outcome A) l a res :
  P a [] →
  (∀ a x a' seen, P a seen → body a x = Returns a' → P a' (seen ++ [x])) →
  for_each body a l = Returns res → P res l.
Proof.
  intros Ha Hstep.
  assert (∀ seen a, P a seen → for_each body a l = Returns res →
                    P res (seen ++ l)) as Hgen.
  { induction l as [|x l IH]; intros seen a0 Hinv; cbn [for_each].
    - intros [= <-]. by rewrite app_nil_r.
    - destruct (body a0 x) as [a'|e] eqn:Hb; cbn; [|done].
      intros Hres. rewrite (cons_middle x seen l), app_assoc.
      eapply IH; [|exact Hres]. by eapply Hstep. }
  apply (Hgen [] a Ha).
Qed.

End Outcome.

(** ** Binary64 arithmetic of [math.sqrt] and [**] *)

Module Float64.
Import Outcome.

(** [float(n)] for an integer [n]: rounding to nearest, ties to even; an
    integer that rounds beyond the largest float raises. *)
Definition float_of_int (n : Z) : outcome SpecFloat.spec_float :=
  match SpecFloat.binary_normalize 53 1024 n 0 false with
  | SpecFloat.S754_infinity _ => Raises OverflowError
  | x => Returns x
  end.

(** [math.sqrt(x)]: the correctly rounded square root; a negative argument
    is a domain error. *)
Definition math_sqrt (x : SpecFloat.spec_float) : outcome SpecFloat.spec_float :=
  match x with
  | SpecFloat.S754_finite true _ _ | SpecFloat.S754_infinity true =>
      Raises ValueError
  | _ => Returns (SpecFloat.SFsqrt 53 1024 x)
  end.

(** [int(x)]: truncation towards zero. *)
Definition int_of_float (x : SpecFloat.spec_float) : outcome Z :=
  match x with
  | SpecFloat.S754_zero _ => Returns 0
  | SpecFloat.S754_finite s m e =>
      let v := if 0 <=? e then Z.shiftl (Z.pos m) e
               else Z.shiftr (Z.pos m) (- e) in
      Returns (if s then - v else v)
  | SpecFloat.S754_infinity _ => Raises OverflowError
  | SpecFloat.S754_nan => Raises ValueError
  end.

(** [int(math.sqrt(n))] *)
Definition int_math_sqrt (n : Z) : outcome Z :=
  x ← float_of_int n; r ← math_sqrt x; int_of_float r.

(** [int(n ** 0.5)], for the C library's [pow_half x = pow(x, 0.5)]. *)
Definition int_pow_half (pow_half : SpecFloat.spec_float → SpecFloat.spec_float)
    (n : Z) : outcome Z :=
  x ← float_of_int n; int_of_float (pow_half x).

(** A [pow] whose square roots are correctly rounded, to evaluate examples. *)
Definition rounded_pow_half (x : SpecFloat.spec_float) : SpecFloat.spec_float :=
  SpecFloat.SFsqrt 53 1024 x.

(** The float 1.0, an elapsed time for the examples. *)
Definition one_second : SpecFloat.spec_float :=
  SpecFloat.S754_finite false 4503599627370496 (-52).

(** [int(math.sqrt(n))] returns the integer square root of [n]. *)
Definition sqrt_exact (n : Z) : Prop := int_math_sqrt n = Returns (Z.sqrt n).

(** [int(n ** 0.5)] returns the integer square root of [n]. *)
Definition pow_exact (pow_half : SpecFloat.spec_float → SpecFloat.spec_float)
    (n : Z) : Prop :=
  int_pow_half pow_half n = Returns (Z.sqrt n).



(** *** The float square root of the integers below 2^52 *)

Section Exactness.
Import SpecFloat.

(** The mantissa [p] has [digits2_pos p] binary digits. *)
Lemma digits2_pos_bounds p :
  2 ^ (Z.pos (digits2_pos p) - 1) ≤ Z.pos p < 2 ^ Z.pos (digits2_pos p).
Proof.
  induction p as [p IH|p IH|]; cbn [digits2_pos]; [| |by vm_compute].
  - rewrite Pos2Z.inj_succ. rewrite Z.pow_succ_r by lia.
    replace (Z.succ (Z.pos (digits2_pos p)) - 1)
      with (Z.succ (Z.pos (digits2_pos p) - 1)) by lia.
    rewrite Z.pow_succ_r by lia. lia.
  - rewrite Pos2Z.inj_succ. rewrite Z.pow_succ_r by lia.
    replace (Z.succ (Z.pos (digits2_pos p)) - 1)
      with (Z.succ (Z.pos (digits2_pos p) - 1)) by lia.
    rewrite Z.pow_succ_r by lia. lia.
Qed.

Lemma digits2_pos_unique p d :
  2 ^ (d - 1) ≤ Z.pos p < 2 ^ d → Z.pos (digits2_pos p) = d.
Proof.
  intros [Hlo Hhi]. pose proof (digits2_pos_bounds p) as [Hlo' Hhi'].
  assert (0 < d).
  { destruct (Z_lt_le_dec 0 d); [done|]. exfalso.
    destruct (Z.eq_dec d 0) as [->|]; [simpl in Hhi; lia|].
    rewrite Z.pow_neg_r in Hhi by lia. lia. }
  destruct (Z_lt_le_dec (Z.pos (digits2_pos p)) d) as [Hlt|Hge].
  - exfalso. assert (2 ^ Z.pos (digits2_pos p) ≤ 2 ^ (d - 1))
      by (apply Z.pow_le_mono_r; lia). lia.
  - destruct (Z_lt_le_dec d (Z.pos (digits2_pos p))) as [Hlt|Hge']; [|lia].
    exfalso. assert (2 ^ d ≤ 2 ^ (Z.pos (digits2_pos p) - 1))
      by (apply Z.pow_le_mono_r; lia). lia.
Qed.

Lemma iter_xO p k : Z.pos (Pos.iter xO p k) = Z.pos p * 2 ^ Z.pos k.
Proof.
  induction k as [|k IH] using Pos.peano_ind.
  - cbn. lia.
  - rewrite Pos.iter_succ, Pos2Z.inj_succ, Z.pow_succ_r by lia.
    rewrite Pos2Z.inj_xO, IH. lia.
Qed.

(** Rounding a mantissa of 53 digits. *)
Lemma binary_round_aux_53 (m : positive) (e : Z) (l : location) :
  Z.pos (digits2_pos m) = 53 → -1074 ≤ e ≤ 970 →
  ∃ m' e',
    binary_round_aux 53 1024 false (Z.pos m) e l = S754_finite false m' e' ∧
    ((e' = e ∧ Z.pos m' = round_nearest_even (Z.pos m) l) ∨
     (e' = e + 1 ∧ 2 * Z.pos m' = round_nearest_even (Z.pos m) l ∧
      Z.pos m' = 2 ^ 52)).
Proof.
  intros Hd He.
  assert (∀ q : positive, Z.pos (digits2_pos q) = 53 → ∀ l0,
    shr_fexp 53 1024 (Z.pos q) e l0 = (shr_record_of_loc (Z.pos q) l0, e)) as Hshr.
  { intros q Hq l0. unfold shr_fexp. cbn [Zdigits2]. rewrite Hq.
    replace (fexp 53 1024 (53 + e) - e) with 0; [done|].
    unfold fexp, emin. lia. }
  unfold binary_round_aux. rewrite Hshr by done.
  assert (shr_m (shr_record_of_loc (Z.pos m) l) = Z.pos m) as ->
    by (by destruct l as [|[| |]]).
  assert (loc_of_shr_record (shr_record_of_loc (Z.pos m) l) = l) as ->
    by (by destruct l as [|[| |]]).
  pose proof (digits2_pos_bounds m) as Hm. rewrite Hd in Hm.
  assert (round_nearest_even (Z.pos m) l = Z.pos m ∨
          round_nearest_even (Z.pos m) l = Z.pos m + 1) as [Hr|Hr].
  { destruct l as [|[| |]]; cbn [round_nearest_even]; auto.
    destruct (Z.even (Z.pos m)); auto. }
  - rewrite Hr, Hshr by done. cbn [shr_m shr_record_of_loc].
    destruct (Z.leb_spec e (1024 - 53)); [|lia].
    exists m, e. split; [done|]. left. done.
  - rewrite Hr. destruct (Z_lt_le_dec (Z.pos m + 1) (2 ^ 53)) as [Hlt|Hge].
    + replace (Z.pos m + 1) with (Z.pos (m + 1)) by lia.
      rewrite Hshr by (apply digits2_pos_unique; lia).
      cbn [shr_m shr_record_of_loc].
      destruct (Z.leb_spec e (1024 - 53)); [|lia].
      exists (m + 1)%positive, e. split; [done|]. left. lia.
    + assert (Z.pos m + 1 = 2 ^ 53) as -> by lia.
      unfold shr_fexp.
      replace (fexp 53 1024 (Zdigits2 (2 ^ 53) + e) - e) with 1.
      2:{ change (Zdigits2 (2 ^ 53)) with 54. unfold fexp, emin. lia. }
      cbn [shr shr_record_of_loc iter_pos].
      change (shr_m (shr_1 {| shr_m := 2 ^ 53; shr_r := false; shr_s := false |}))
        with (2 ^ 52).
      change (2 ^ 52) with (Z.pos (2 ^ 52)%positive) at 1.
      cbv iota beta.
      destruct (Z.leb_spec (e + 1) (1024 - 53)); [|lia].
      exists (2 ^ 52)%positive, (e + 1). split; [done|]. right. done.
Qed.

(** The conversion of an integer below 2^53 is exact. *)
Lemma binary_normalize_small p :
  Z.pos p < 2 ^ 53 →
  ∃ mz,
    binary_normalize 53 1024 (Z.pos p) 0 false
      = S754_finite false mz (Z.pos (digits2_pos p) - 53) ∧
    Z.pos mz = Z.pos p * 2 ^ (53 - Z.pos (digits2_pos p)) ∧
    Z.pos (digits2_pos mz) = 53.
Proof.
  intros Hp. pose proof (digits2_pos_bounds p) as Hd.
  set (d := Z.pos (digits2_pos p)) in *.
  assert (1 ≤ d ≤ 53) as Hd53.
  { split; [unfold d; lia|].
    destruct (Z_le_gt_dec d 53); [done|]. exfalso.
    assert (2 ^ 53 ≤ 2 ^ (d - 1)) by (apply Z.pow_le_mono_r; lia). lia. }
  assert (∃ mz, shl_align p 0 (d - 53) = (mz, d - 53) ∧
                Z.pos mz = Z.pos p * 2 ^ (53 - d)) as (mz & Hal & Hmz).
  { unfold shl_align. destruct (d - 53 - 0) as [|k|k] eqn:Hk; [|lia|].
    - exists p. split; [f_equal; lia|].
      replace (53 - d) with 0 by lia. cbn. lia.
    - exists (Pos.iter xO p k). split; [done|].
      rewrite iter_xO. do 2 f_equal. lia. }
  assert (Z.pos (digits2_pos mz) = 53) as Hdz.
  { apply digits2_pos_unique. rewrite Hmz. split.
    - replace (53 - 1) with ((d - 1) + (53 - d)) by lia.
      rewrite Z.pow_add_r by lia. apply Z.mul_le_mono_nonneg_r; [|lia].
      apply Z.pow_nonneg. lia.
    - replace 53 with (d + (53 - d)) at 2 by lia.
      rewrite Z.pow_add_r by lia. apply Z.mul_lt_mono_pos_r; [|lia].
      apply Z.pow_pos_nonneg; lia. }
  exists mz. split; [|done].
  unfold binary_normalize, binary_round.
  replace (fexp 53 1024 (Z.pos (digits2_pos p) + 0)) with (d - 53)
    by (unfold fexp, emin; fold d; lia).
  rewrite Hal.
  destruct (binary_round_aux_53 mz (d - 53) loc_Exact Hdz) as (m' & e' & -> & Hcase);
    [lia|].
  pose proof (digits2_pos_bounds mz) as Hb. rewrite Hdz in Hb.
  cbn [round_nearest_even] in Hcase.
  destruct Hcase as [[-> Hm]|(_ & Hm & Hm')]; [|lia].
  by injection Hm as ->.
Qed.

Lemma sqrt_scaled p K q r :
  0 < p → Z.sqrt p + 1 ≤ K → 0 ≤ q → p * (K * K) = q * q + r → 0 ≤ r ≤ 2 * q →
  q `div` K = Z.sqrt p ∧ (q < r → (q + 1) `div` K = Z.sqrt p).
Proof.
  intros Hp HK Hq Heq Hr.
  pose proof (Z.sqrt_spec p ltac:(lia)) as Ht.
  pose proof (Z.sqrt_nonneg p) as Ht0.
  set (t := Z.sqrt p) in *.
  assert (0 < K) by lia.
  destruct Ht as [Ht1 Ht2]. unfold Z.succ in Ht2.
  assert ((t * K) * (t * K) ≤ p * (K * K)) as Hsq1.
  { replace ((t * K) * (t * K)) with ((t * t) * (K * K)) by ring.
    apply Z.mul_le_mono_nonneg_r; [nia|done]. }
  assert (p * (K * K) < ((t + 1) * K) * ((t + 1) * K)) as Hsq2.
  { replace (((t + 1) * K) * ((t + 1) * K)) with (((t + 1) * (t + 1)) * (K * K))
      by ring.
    apply Z.mul_lt_mono_pos_r; [nia|done]. }
  assert (t * K ≤ q) as Hlo.
  { destruct (Z_le_gt_dec (t * K) q); [done|]. exfalso.
    assert ((q + 1) * (q + 1) ≤ (t * K) * (t * K))
      by (apply Z.square_le_mono_nonneg; lia).
    lia. }
  assert (q < (t + 1) * K) as Hhi.
  { destruct (Z_lt_le_dec q ((t + 1) * K)); [done|]. exfalso.
    assert (((t + 1) * K) * ((t + 1) * K) ≤ q * q)
      by (apply Z.square_le_mono_nonneg; nia).
    lia. }
  split.
  - symmetry. apply (Z.div_unique_pos q K t (q - t * K)); lia.
  - intros Hup.
    assert (q + 1 < (t + 1) * K) as Hhi'.
    { destruct (Z_lt_le_dec (q + 1) ((t + 1) * K)); [done|]. exfalso.
      assert (q + 1 = (t + 1) * K) as Hq1 by lia.
      assert ((p + 1) * (K * K) ≤ ((t + 1) * (t + 1)) * (K * K)) as Hp1
        by (apply Z.mul_le_mono_nonneg_r; [nia|lia]).
      assert (((t + 1) * (t + 1)) * (K * K) = (q + 1) * (q + 1)) as Hq2
        by (rewrite Hq1; ring).
      assert (K * K < q + 1) as HKK by lia.
      rewrite Hq1 in HKK.
      assert (K * K < K * K); [|lia].
      eapply Z.lt_le_trans; [exact HKK|].
      apply Z.mul_le_mono_nonneg_r; lia. }
    symmetry. apply (Z.div_unique_pos (q + 1) K t (q + 1 - t * K)); lia.
Qed.

(** Below 2^52 the float square root truncates to the integer square root:
    the integer converts exactly, the root is rounded at a distance from the
    next integer that the rounding cannot bridge, and [int] truncates. *)
Lemma sqrt_exact_small n : 0 ≤ n < 2 ^ 52 → sqrt_exact n.
Proof.
  unfold sqrt_exact. intros [Hn0 Hn]. destruct n as [|p|p]; [done| |lia].
  destruct (binary_normalize_small p) as (mz & Hnorm & Hmz & Hdz); [lia|].
  pose proof (digits2_pos_bounds p) as Hd.
  set (d := Z.pos (digits2_pos p)) in *.
  assert (1 ≤ d ≤ 52) as Hd52.
  { split; [unfold d; lia|].
    destruct (Z_le_gt_dec d 52); [done|]. exfalso.
    assert (2 ^ 52 ≤ 2 ^ (d - 1)) by (apply Z.pow_le_mono_r; lia). lia. }
  unfold int_math_sqrt, float_of_int. rewrite Hnorm.
  cbn [mbind outcome_bind math_sqrt SFsqrt].
  (* the core of the square root *)
  set (h := (d + 1) `div` 2).
  assert (2 * h ≤ d + 1 ≤ 2 * h + 1) as Hh
    by (unfold h; pose proof (Z_div_mod_eq_full (d + 1) 2);
        pose proof (Z.mod_pos_bound (d + 1) 2); lia).
  set (k := 53 - h).
  unfold SFsqrt_core_binary. cbn [Zdigits2]. rewrite Hdz.
  replace (Z.min (fexp 53 1024 (Z.div2 (53 + (d - 53) + 1))) (Z.div2 (d - 53)))
    with (- k).
  2:{ rewrite !Z.div2_div. replace (53 + (d - 53) + 1) with (d + 1) by lia.
      fold h. unfold fexp, emin.
      pose proof (Z_div_mod_eq_full (d - 53) 2).
      pose proof (Z.mod_pos_bound (d - 53) 2). lia. }
  destruct (d - 53 - 2 * - k) as [|s|s] eqn:Hs; [lia| |lia].
  rewrite Z.shiftl_mul_pow2 by lia.
  assert (Z.pos mz * 2 ^ Z.pos s = Z.pos p * (2 ^ k * 2 ^ k)) as Hm'.
  { rewrite Hmz, <- Z.mul_assoc, <- !Z.pow_add_r by lia. do 2 f_equal. lia. }
  rewrite Hm'.
  pose proof (Z.sqrtrem_spec (Z.pos p * (2 ^ k * 2 ^ k))) as Hspec.
  destruct (Z.sqrtrem (Z.pos p * (2 ^ k * 2 ^ k))) as [q r].
  destruct Hspec as [Hqr Hr]; [lia|].
  assert (0 < 2 ^ k) as HK by (apply Z.pow_pos_nonneg; lia).
  (* the root has 53 digits *)
  assert (2 ^ 104 ≤ Z.pos p * (2 ^ k * 2 ^ k)) as Hlo.
  { rewrite <- Z.pow_add_r by lia.
    apply Z.le_trans with (2 ^ (d - 1) * 2 ^ (k + k)).
    - rewrite <- Z.pow_add_r by lia. apply Z.pow_le_mono_r; lia.
    - apply Z.mul_le_mono_nonneg_r; [apply Z.pow_nonneg|]; lia. }
  assert (Z.pos p * (2 ^ k * 2 ^ k) < 2 ^ 106) as Hhi.
  { rewrite <- Z.pow_add_r by lia.
    apply Z.lt_le_trans with (2 ^ d * 2 ^ (k + k)).
    - apply Z.mul_lt_mono_pos_r; [apply Z.pow_pos_nonneg|]; lia.
    - rewrite <- Z.pow_add_r by lia. apply Z.pow_le_mono_r; lia. }
  assert (2 ^ 52 ≤ q < 2 ^ 53) as Hq.
  { split.
    - destruct (Z_le_gt_dec (2 ^ 52) q); [done|]. exfalso.
      assert ((q + 1) * (q + 1) ≤ 2 ^ 52 * 2 ^ 52)
        by (apply Z.square_le_mono_nonneg; lia).
      change (2 ^ 52 * 2 ^ 52) with (2 ^ 104) in *. lia.
    - destruct (Z_lt_le_dec q (2 ^ 53)); [done|]. exfalso.
      assert (2 ^ 53 * 2 ^ 53 ≤ q * q)
        by (apply Z.square_le_mono_nonneg; lia).
      change (2 ^ 53 * 2 ^ 53) with (2 ^ 106) in *. lia. }
  destruct q as [|qp|qp]; [lia| |lia].
  set (l := if r =? 0 then loc_Exact
            else loc_Inexact (if r <=? Z.pos qp then Lt else Gt)).
  destruct (binary_round_aux_53 qp (- k) l) as (m' & e' & -> & Hcase);
    [by apply digits2_pos_unique|lia|].
  (* truncation *)
  destruct (sqrt_scaled (Z.pos p) (2 ^ k) (Z.pos qp) r) as [Hdiv Hdiv'];
    [lia| |lia|lia|lia|].
  { assert (Z.sqrt (Z.pos p) < 2 ^ 26).
    { apply Z.sqrt_lt_square; [lia|lia|].
      change (2 ^ 26 * 2 ^ 26) with (2 ^ 52). lia. }
    assert (2 ^ 27 ≤ 2 ^ k) by (apply Z.pow_le_mono_r; lia). lia. }
  assert (round_nearest_even (Z.pos qp) l `div` 2 ^ k = Z.sqrt (Z.pos p)) as Hround.
  { unfold l. destruct (Z.eqb_spec r 0); [done|].
    destruct (Z.leb_spec r (Z.pos qp)); [done|]. by apply Hdiv'. }
  cbn [int_of_float].
  destruct Hcase as [[-> Hm]|(-> & Hm & Hm52)].
  - destruct (Z.leb_spec 0 (- k)); [lia|].
    rewrite Z.shiftr_div_pow2 by lia. rewrite Hm.
    replace (- - k) with k by lia. by rewrite Hround.
  - destruct (Z.leb_spec 0 (- k + 1)); [lia|].
    rewrite Z.shiftr_div_pow2 by lia. f_equal.
    rewrite <- Hround, <- Hm.
    replace (2 ^ k) with (2 * 2 ^ (- (- k + 1)))
      by (rewrite <- Z.pow_succ_r by lia; f_equal; lia).
    rewrite Z.div_mul_cancel_l; lia.
Qed.

(** An integer of at most 53 binary digits converts to a float. *)
Lemma float_of_int_small n : 0 ≤ n < 2 ^ 53 → ∃ x, float_of_int n = Returns x.
Proof.
  intros [Hn0 Hn]. destruct n as [|p|p]; [by eexists| |lia].
  destruct (binary_normalize_small p Hn) as (mz & Hnorm & _).
  unfold float_of_int. rewrite Hnorm. by eexists.
Qed.

End Exactness.

(** From 2^52 on the float square root is off for some integers (the
    first is 2^52 + 2^27, one less than the square of 2^26 + 1), and it
    raises for those too large for a float. *)
Lemma int_math_sqrt_examples :
  int_math_sqrt 91 = Returns 9 ∧
  int_math_sqrt (2 ^ 52 + 2 ^ 27) = Returns (2 ^ 26 + 1) ∧
  Z.sqrt (2 ^ 52 + 2 ^ 27) = 2 ^ 26 ∧
  int_math_sqrt (2 ^ 106 - 1) = Returns (2 ^ 53) ∧
  Z.sqrt (2 ^ 106 - 1) = 2 ^ 53 - 1 ∧
  int_math_sqrt (2 ^ 1024) = Raises OverflowError.
Proof. by vm_compute. Qed.

End Float64.

(** ** Single-number primality tests *)

Module TrialDivision.
Import PyRange Divisors Outcome Float64.

(** [for i in l: if n % i == 0: return False], then [return True]. *)
Fixpoint no_divisor_in (n : Z) (l : list Z) : bool :=
  match l with
  | [] => true
  | i :: l' => if n `mod` i =? 0 then false else no_divisor_in n l'
  end.

(** [is_prime_fast] without gmpy2 (dart69_prime_checker.py, the optimized
    checker and Large_Prime_number_Generator.py share this body). *)
Definition is_prime_fast (n : Z) : outcome bool :=
  if n <? 2 then Returns false
  else if n =? 2 then Returns true
  else if n `mod` 2 =? 0 then Returns false
  else
    sqrt_n ← int_math_sqrt n;
    Returns (no_divisor_in n (range_step 3 (sqrt_n + 1) 2)).

(** [PrimeVerificationSuite._trial_division]
    (prime_verification_for_Trinity.py), whose bound is [int(n**0.5)]. *)
Definition trial_division (pow_half : SpecFloat.spec_float → SpecFloat.spec_float)
    (n : Z) : outcome bool :=
  if n <? 2 then Returns false
  else if n =? 2 then Returns true
  else if n `mod` 2 =? 0 then Returns false
  else
    sqrt_n ← int_pow_half pow_half n;
    Returns (no_divisor_in n (range_step 3 (sqrt_n + 1) 2)).

(** [for i in l: if n % i == 0 or n % (i + 2) == 0: return False], then
    [return True]. *)
Fixpoint no_divisor_6k (n : Z) (l : list Z) : bool :=
  match l with
  | [] => true
  | i :: l' =>
      if (n `mod` i =? 0) || (n `mod` (i + 2) =? 0) then false
      else no_divisor_6k n l'
  end.

(** [DART69Sieve.is_prime_basic] (dart69_python_sieve (1).py). *)
Definition is_prime_basic (n : Z) : outcome bool :=
  if n <? 2 then Returns false
  else if n =? 2 then Returns true
  else if n `mod` 2 =? 0 then Returns false
  else if n <? 9 then Returns true
  else if n `mod` 3 =? 0 then Returns false
  else
    sqrt_n ← int_math_sqrt n;
    let limit := sqrt_n + 1 in
    Returns (no_divisor_6k n (range_step 5 limit 6)).

(** *** Trial division up to the integer square root

    The two functions below are the tests above with [⌊√n⌋] in the place of
    the truncated float square root.  They are proved to decide primality;
    the tests of the code return their value wherever the float square
    root truncates to [⌊√n⌋]. *)

Definition odd_trial_division (n : Z) : bool :=
  if n <? 2 then false
  else if n =? 2 then true
  else if n `mod` 2 =? 0 then false
  else no_divisor_in n (range_step 3 (Z.sqrt n + 1) 2).

Definition wheel_trial_division (n : Z) : bool :=
  if n <? 2 then false
  else if n =? 2 then true
  else if n `mod` 2 =? 0 then false
  else if n <? 9 then true
  else if n `mod` 3 =? 0 then false
  else no_divisor_6k n (range_step 5 (Z.sqrt n + 1) 6).

Lemma no_divisor_in_true n l :
  no_divisor_in n l = true ↔ ∀ i, i ∈ l → n `mod` i ≠ 0.
Proof.
  induction l as [|i l IH]; simpl.
  - split; [intros _ i Hi; by apply elem_of_nil in Hi|done].
  - destruct (Z.eqb_spec (n `mod` i) 0) as [Heq|Hne].
    + split; [done|]. intros H. exfalso. apply (H i); [left|done].
    + rewrite IH. split.
      * intros H j [->|Hj]%elem_of_cons; [done|by apply H].
      * intros H j Hj. apply H. by right.
Qed.

Lemma no_divisor_6k_true n l :
  no_divisor_6k n l = true ↔
  ∀ i, i ∈ l → n `mod` i ≠ 0 ∧ n `mod` (i + 2) ≠ 0.
Proof.
  induction l as [|i l IH]; simpl.
  - split; [intros _ i Hi; by apply elem_of_nil in Hi|done].
  - destruct (Z.eqb_spec (n `mod` i) 0) as [Heq|Hne]; simpl.
    + split; [done|]. intros H. exfalso.
      destruct (H i) as [Hi _]; [left|done].
    + destruct (Z.eqb_spec (n `mod` (i + 2)) 0) as [Heq2|Hne2].
      * split; [done|]. intros H. exfalso.
        destruct (H i) as [_ Hi]; [left|done].
      * rewrite IH. split.
        -- intros H j [->|Hj]%elem_of_cons; [done|by apply H].
        -- intros H j Hj. apply H. by right.
Qed.

Lemma divide_mod_nonzero a d n :
  0 < a → (d | n) → n `mod` a ≠ 0 → d `mod` a ≠ 0.
Proof.
  intros Ha Hdn Hn Hd. apply Hn.
  apply Z.mod_divide; [lia|].
  apply Z.divide_trans with d; [|done].
  apply Z.mod_divide; [lia|done].
Qed.

(** The loop of odd trial division on an odd [n ≥ 3]. *)
Lemma odd_trial_loop n :
  3 ≤ n → n `mod` 2 ≠ 0 →
  no_divisor_in n (range_step 3 (Z.sqrt n + 1) 2) = true ↔
  ∀ d, 3 ≤ d ≤ Z.sqrt n → d `mod` 2 = 1 → ¬ (d | n).
Proof.
  intros Hn Hodd. rewrite no_divisor_in_true. split.
  - intros H d Hd Hd2 Hdiv. apply (H d).
    + apply elem_of_range_step; [lia|]. split; [lia|].
      rewrite Zminus_mod, Hd2. done.
    + apply Z.mod_divide; [lia|done].
  - intros H i Hi Hmod. apply elem_of_range_step in Hi as [Hi Hi2]; [|lia].
    apply (H i); [lia| |apply Z.mod_divide; [lia|done]].
    rewrite Zminus_mod in Hi2.
    pose proof (Z.mod_pos_bound i 2 eq_refl) as Hb.
    destruct (decide (i `mod` 2 = 1)) as [|Hne]; [done|].
    assert (i `mod` 2 = 0) as Hz by lia. rewrite Hz in Hi2. done.
Qed.

Lemma odd_divisors_suffice n :
  3 ≤ n → n `mod` 2 ≠ 0 →
  (∀ d, 3 ≤ d ≤ Z.sqrt n → d `mod` 2 = 1 → ¬ (d | n)) ↔ Z.prime n.
Proof.
  intros Hn Hodd. rewrite prime_iff_no_divisor_upto_sqrt. split.
  - intros H. split; [lia|]. intros d Hd Hdd Hdiv.
    pose proof (divide_mod_nonzero 2 d n eq_refl Hdiv Hodd) as Hd2.
    pose proof (Z.mod_pos_bound d 2 eq_refl) as Hb.
    apply (H d); [|lia|done].
    split; [|apply sqrt_bound; lia].
    destruct (decide (d = 2)) as [->|]; [done|lia].
  - intros [_ H] d Hd _. apply H; [lia|]. apply sqrt_bound; lia.
Qed.

Lemma not_prime_lt_2 n : n < 2 → ¬ Z.prime n.
Proof. intros Hn [? _]. lia. Qed.

Lemma not_prime_even n : 2 < n → n `mod` 2 = 0 → ¬ Z.prime n.
Proof.
  intros Hn Hmod [_ Hp]. apply (Hp 2); [lia|].
  apply Z.mod_divide; [lia|done].
Qed.

Lemma not_prime_multiple d n : 1 < d < n → n `mod` d = 0 → ¬ Z.prime n.
Proof.
  intros Hd Hmod [_ Hp]. apply (Hp d); [lia|].
  apply Z.mod_divide; [lia|done].
Qed.

Lemma odd_trial_division_correct n : odd_trial_division n = true ↔ Z.prime n.
Proof.
  unfold odd_trial_division.
  destruct (Z.ltb_spec n 2) as [Hlt|Hge].
  { split; [done|]. intros Hp. by apply not_prime_lt_2 in Hp. }
  destruct (Z.eqb_spec n 2) as [->|Hne2].
  { split; [intros _; apply Z.prime_2|done]. }
  destruct (Z.eqb_spec (n `mod` 2) 0) as [Hev|Hodd].
  { split; [done|]. intros Hp. apply not_prime_even in Hp; [done|lia|done]. }
  simpl. rewrite odd_trial_loop by lia. apply odd_divisors_suffice; lia.
Qed.

Lemma mod_6_cases d :
  d `mod` 2 ≠ 0 → d `mod` 3 ≠ 0 → d `mod` 6 = 1 ∨ d `mod` 6 = 5.
Proof.
  intros H2 H3.
  pose proof (Z_div_mod_eq_full d 6) as H6.
  pose proof (Z.mod_pos_bound d 6 eq_refl) as Hb.
  assert (d `mod` 6 = 0 ∨ d `mod` 6 = 1 ∨ d `mod` 6 = 2 ∨ d `mod` 6 = 3 ∨
          d `mod` 6 = 4 ∨ d `mod` 6 = 5) as Hc by lia.
  destruct Hc as [Hc|[Hc|[Hc|[Hc|[Hc|Hc]]]]]; rewrite Hc in H6; auto; exfalso.
  - apply H2. rewrite H6, Z.add_0_r. replace (6 * (d `div` 6)) with ((3 * (d `div` 6)) * 2) by lia. apply Z_mod_mult.
  - apply H2. replace d with ((3 * (d `div` 6) + 1) * 2) by lia. apply Z_mod_mult.
  - apply H3. replace d with ((2 * (d `div` 6) + 1) * 3) by lia. apply Z_mod_mult.
  - apply H2. replace d with ((3 * (d `div` 6) + 2) * 2) by lia. apply Z_mod_mult.
Qed.

Lemma mod_6_offset d r k : d `mod` 6 = r → (d - r - 6 * k) `mod` 6 = 0.
Proof.
  intros Hr. pose proof (Z_div_mod_eq_full d 6) as H6. rewrite Hr in H6.
  replace (d - r - 6 * k) with ((d `div` 6 - k) * 6) by lia. apply Z_mod_mult.
Qed.

(** The 6k±1 loop on an [n ≥ 9] that is divisible neither by 2 nor by 3. *)
Lemma wheel_6k_loop n :
  9 ≤ n → n `mod` 2 ≠ 0 → n `mod` 3 ≠ 0 →
  no_divisor_6k n (range_step 5 (Z.sqrt n + 1) 6) = true ↔ Z.prime n.
Proof.
  intros Hn H2 H3. rewrite no_divisor_6k_true, prime_iff_no_divisor_upto_sqrt.
  split.
  - intros H. split; [lia|]. intros d Hd Hdd Hdiv.
    assert (d ≤ Z.sqrt n) as Hds by (apply sqrt_bound; lia).
    pose proof (divide_mod_nonzero 2 d n eq_refl Hdiv H2) as Hd2.
    pose proof (divide_mod_nonzero 3 d n eq_refl Hdiv H3) as Hd3.
    apply Z.mod_divide in Hdiv; [|lia].
    destruct (mod_6_cases d Hd2 Hd3) as [H1|H5].
    + (* d = 6k + 1 is tested as i + 2 for i = d - 2 *)
      pose proof (mod_6_offset d 1 1 H1) as Ho.
      assert (d ≠ 1 ∧ d ≠ 2 ∧ d ≠ 3 ∧ d ≠ 4 ∧ d ≠ 5 ∧ d ≠ 6) as Hsmall.
      { repeat split; intros ->; done. }
      destruct (H (d - 2)) as [_ Hi].
      * apply elem_of_range_step; [lia|]. split; [lia|].
        by replace (d - 2 - 5) with (d - 1 - 6 * 1) by lia.
      * apply Hi. by replace (d - 2 + 2) with d by lia.
    + (* d = 6k + 5 is tested as i *)
      pose proof (mod_6_offset d 5 0 H5) as Ho.
      assert (d ≠ 2 ∧ d ≠ 3 ∧ d ≠ 4) as Hsmall.
      { repeat split; intros ->; done. }
      destruct (H d) as [Hi _]; [|done].
      apply elem_of_range_step; [lia|]. split; [lia|].
      by replace (d - 5) with (d - 5 - 6 * 0) by lia.
  - intros [_ Hno] i [Hi _]%elem_of_range_step; [|lia].
    assert (i * i ≤ n) by (apply sqrt_bound; lia).
    split; intros Hm; apply Z.mod_divide in Hm; try lia.
    + by apply (Hno i); [lia|..].
    + destruct Hm as [c Hc].
      destruct (Z_le_gt_dec ((i + 2) * (i + 2)) n) as [Hle|Hgt].
      * apply (Hno (i + 2)); [lia|done|]. by exists c.
      * apply (Hno c); [nia|nia|]. exists (i + 2). lia.
Qed.

Lemma wheel_trial_division_correct n : wheel_trial_division n = true ↔ Z.prime n.
Proof.
  unfold wheel_trial_division.
  destruct (Z.ltb_spec n 2) as [Hlt|Hge].
  { split; [done|]. intros Hp. by apply not_prime_lt_2 in Hp. }
  destruct (Z.eqb_spec n 2) as [->|Hne2].
  { split; [intros _; apply Z.prime_2|done]. }
  destruct (Z.eqb_spec (n `mod` 2) 0) as [Hev|Hodd].
  { split; [done|]. intros Hp. apply not_prime_even in Hp; [done|lia|done]. }
  destruct (Z.ltb_spec n 9) as [Hlt9|Hge9].
  { split; [intros _|done].
    assert (n = 3 ∨ n = 4 ∨ n = 5 ∨ n = 6 ∨ n = 7 ∨ n = 8) as Hc by lia.
    destruct Hc as [->|[->|[->|[->|[->| ->]]]]];
      solve [by apply odd_trial_division_correct | by exfalso; apply Hodd]. }
  destruct (Z.eqb_spec (n `mod` 3) 0) as [Hm3|Hm3].
  { split; [done|]. intros Hp. apply (not_prime_multiple 3) in Hp; [done|lia|done]. }
  simpl. by apply wheel_6k_loop.
Qed.

Lemma wheel_is_odd_trial_division n : wheel_trial_division n = odd_trial_division n.
Proof.
  apply eq_true_iff_eq.
  by rewrite wheel_trial_division_correct, odd_trial_division_correct.
Qed.

Lemma odd_trial_division_false n : ¬ Z.prime n → odd_trial_division n = false.
Proof.
  intros Hn. destruct (odd_trial_division n) eqn:Ht; [|done].
  by apply odd_trial_division_correct in Ht.
Qed.

(** *** The tests of the code against trial division up to [⌊√n⌋] *)

(** Below 3 and on even numbers the tests return before any square root is
    taken. *)
Lemma is_prime_fast_early n :
  n < 3 ∨ n `mod` 2 = 0 → is_prime_fast n = Returns (odd_trial_division n).
Proof.
  intros Hn. unfold is_prime_fast, odd_trial_division.
  destruct (Z.ltb_spec n 2); [done|]. destruct (Z.eqb_spec n 2); [done|].
  destruct (Z.eqb_spec (n `mod` 2) 0) as [|Hodd]; [done|].
  destruct Hn as [Hn|Hn]; [lia|done].
Qed.

Lemma is_prime_fast_exact n :
  sqrt_exact n → is_prime_fast n = Returns (odd_trial_division n).
Proof.
  intros Hs. unfold is_prime_fast, odd_trial_division.
  destruct (n <? 2); [done|]. destruct (n =? 2); [done|].
  destruct (n `mod` 2 =? 0); [done|]. by rewrite Hs.
Qed.

Lemma is_prime_fast_returns n :
  (3 ≤ n → sqrt_exact n) → is_prime_fast n = Returns (odd_trial_division n).
Proof.
  intros Hs. destruct (Z_lt_le_dec n 3) as [Hlt|Hge].
  - apply is_prime_fast_early. by left.
  - by apply is_prime_fast_exact, Hs.
Qed.

Lemma is_prime_fast_small n :
  n < 2 ^ 52 → is_prime_fast n = Returns (odd_trial_division n).
Proof.
  intros Hn. apply is_prime_fast_returns. intros ?. apply sqrt_exact_small. lia.
Qed.


Lemma is_prime_fast_overflow n :
  3 ≤ n → n `mod` 2 ≠ 0 → float_of_int n = Raises OverflowError →
  is_prime_fast n = Raises OverflowError.
Proof.
  intros Hn Hodd Hf. unfold is_prime_fast, int_math_sqrt.
  destruct (Z.ltb_spec n 2); [lia|]. destruct (Z.eqb_spec n 2); [lia|].
  destruct (Z.eqb_spec (n `mod` 2) 0); [done|]. by rewrite Hf.
Qed.

Lemma is_prime_basic_early n :
  n < 9 ∨ n `mod` 2 = 0 ∨ n `mod` 3 = 0 →
  is_prime_basic n = Returns (wheel_trial_division n).
Proof.
  intros Hn. unfold is_prime_basic, wheel_trial_division.
  destruct (Z.ltb_spec n 2); [done|]. destruct (n =? 2); [done|].
  destruct (Z.eqb_spec (n `mod` 2) 0) as [|Hodd]; [done|].
  destruct (Z.ltb_spec n 9); [done|].
  destruct (Z.eqb_spec (n `mod` 3) 0) as [|H3]; [done|].
  destruct Hn as [Hn|[Hn|Hn]]; [lia|done|done].
Qed.

Lemma is_prime_basic_exact n :
  sqrt_exact n → is_prime_basic n = Returns (wheel_trial_division n).
Proof.
  intros Hs. unfold is_prime_basic, wheel_trial_division.
  destruct (n <? 2); [done|]. destruct (n =? 2); [done|].
  destruct (n `mod` 2 =? 0); [done|]. destruct (n <? 9); [done|].
  destruct (n `mod` 3 =? 0); [done|]. by rewrite Hs.
Qed.

Lemma is_prime_basic_returns n :
  (9 ≤ n → sqrt_exact n) → is_prime_basic n = Returns (odd_trial_division n).
Proof.
  intros Hs. rewrite <- wheel_is_odd_trial_division.
  destruct (Z_lt_le_dec n 9) as [Hlt|Hge].
  - apply is_prime_basic_early. by left.
  - by apply is_prime_basic_exact, Hs.
Qed.

Lemma is_prime_basic_small n :
  n < 2 ^ 52 → is_prime_basic n = Returns (odd_trial_division n).
Proof.
  intros Hn. apply is_prime_basic_returns. intros ?. apply sqrt_exact_small. lia.
Qed.

Lemma trial_division_early pow_half n :
  n < 3 ∨ n `mod` 2 = 0 →
  trial_division pow_half n = Returns (odd_trial_division n).
Proof.
  intros Hn. unfold trial_division, odd_trial_division.
  destruct (Z.ltb_spec n 2); [done|]. destruct (Z.eqb_spec n 2); [done|].
  destruct (Z.eqb_spec (n `mod` 2) 0) as [|Hodd]; [done|].
  destruct Hn as [Hn|Hn]; [lia|done].
Qed.

Lemma trial_division_exact pow_half n :
  pow_exact pow_half n →
  trial_division pow_half n = Returns (odd_trial_division n).
Proof.
  intros Hs. unfold trial_division, odd_trial_division.
  destruct (n <? 2); [done|]. destruct (n =? 2); [done|].
  destruct (n `mod` 2 =? 0); [done|]. by rewrite Hs.
Qed.

Lemma trial_division_returns pow_half n :
  (3 ≤ n → pow_exact pow_half n) →
  trial_division pow_half n = Returns (odd_trial_division n).
Proof.
  intros Hs. destruct (Z_lt_le_dec n 3) as [Hlt|Hge].
  - apply trial_division_early. by left.
  - by apply trial_division_exact, Hs.
Qed.


Lemma trial_division_overflow pow_half n :
  3 ≤ n → n `mod` 2 ≠ 0 → float_of_int n = Raises OverflowError →
  trial_division pow_half n = Raises OverflowError.
Proof.
  intros Hn Hodd Hf. unfold trial_division, int_pow_half.
  destruct (Z.ltb_spec n 2); [lia|]. destruct (Z.eqb_spec n 2); [lia|].
  destruct (Z.eqb_spec (n `mod` 2) 0); [done|]. by rewrite Hf.
Qed.

End TrialDivision.

(** ** π-dimensions

    [math.floor(pi ** d)] is a floating-point computation; the definitions
    below take it as the parameter [floor_pi_pow].  [floor_pi_pow_dec] is
    the instance used to evaluate them on small numbers: the floor of the
    [d]-th power of π truncated to 29 decimals, which is the value the
    scripts compute for the small [d] of the examples. *)

Module Pi.

Definition pi_num : Z := 314159265358979323846264338327.
Definition pi_den : Z := 10 ^ 29.

Definition floor_pi_pow_dec (d : Z) : Z :=
  if d <? 0 then 0 else (pi_num ^ d) `div` (pi_den ^ d).

Lemma floor_pi_pow_dec_values :
  floor_pi_pow_dec <$> [-1; 0; 1; 2; 3; 4; 5; 6; 7; 8; 9; 10] =
  [0; 1; 3; 9; 31; 97; 306; 961; 3020; 9488; 29809; 93648].
Proof. vm_compute. reflexivity. Qed.

End Pi.

(** ** The residue-class classifier

    Both checkers classify a number by its wheel position [int(n) % 69] and
    a fixed set of forbidden positions ([position in DART69_FORBIDDEN] in
    the optimized checker, [is_forbidden_position] in
    dart69_prime_checker.py).  [classify] is that test with the modulus and
    the forbidden set as the two fields of a [ResidueFilter]. *)

Module Classifier.
Import PyRange.

Record ResidueFilter := { modulus : Z; forbidden : gset Z }.


Inductive ClassificationResult :=
  | Candidate
  | Excluded (r : Z).

Definition classify (n : Z) (f : ResidueFilter) : ClassificationResult :=
  let r := n `mod` modulus f in
  if bool_decide (r ∈ forbidden f) then Excluded r else Candidate.

Definition is_candidate (f : ResidueFilter) (n : Z) : bool :=
  match classify n f with
  | Candidate => true
  | Excluded _ => false
  end.

(** [get_dart69_position] of dart69_prime_checker.py. *)
Definition get_dart69_position (n : Z) : Z := n `mod` 69.

(** [is_forbidden_position] of dart69_prime_checker.py. *)
Definition is_forbidden_position (pos : Z) (allow_early_exceptions : bool) : bool :=
  if pos `mod` 3 =? 0 then
    if allow_early_exceptions && bool_decide (pos ∈ [3; 23]) then false
    else true
  else false.

(** The module-level loop of the optimized checker:
    [for i in range(69): if i % 3 == 0 or i % 23 == 0: DART69_FORBIDDEN.add(i)]. *)
Definition DART69_FORBIDDEN : gset Z :=
  foldl (λ acc i, if (i `mod` 3 =? 0) || (i `mod` 23 =? 0) then acc ∪ {[i]} else acc)
        ∅ (range 0 69).

(** The filter of the optimized checker. *)
Definition dart69_filter_optimized : ResidueFilter :=
  {| modulus := 69; forbidden := DART69_FORBIDDEN |}.

(** The positions [is_forbidden_position(pos, False)] forbids. *)
Definition multiples_of_3 : gset Z :=
  list_to_set (filter (λ i, i `mod` 3 = 0) (range 0 69)).

Definition dart69_filter_checker : ResidueFilter :=
  {| modulus := 69; forbidden := multiples_of_3 |}.




Lemma is_candidate_true f n : is_candidate f n = true ↔ classify n f = Candidate.
Proof. unfold is_candidate. destruct (classify n f); split; done. Qed.

Lemma elem_of_DART69_FORBIDDEN r :
  r ∈ DART69_FORBIDDEN ↔ 0 ≤ r < 69 ∧ (r `mod` 3 = 0 ∨ r `mod` 23 = 0).
Proof.
  unfold DART69_FORBIDDEN.
  assert (∀ l (acc : gset Z),
    r ∈ foldl (λ acc i, if (i `mod` 3 =? 0) || (i `mod` 23 =? 0)
                        then acc ∪ {[i]} else acc) acc l ↔
    r ∈ acc ∨ (r ∈ l ∧ (r `mod` 3 = 0 ∨ r `mod` 23 = 0))) as Hfold.
  { induction l as [|i l IH]; intros acc; simpl.
    - rewrite elem_of_nil. tauto.
    - rewrite IH, elem_of_cons.
      destruct (Z.eqb_spec (i `mod` 3) 0) as [H3|H3];
        destruct (Z.eqb_spec (i `mod` 23) 0) as [H23|H23]; simpl;
        rewrite ?elem_of_union, ?elem_of_singleton;
        split; intros H; try tauto;
        try (destruct H as [[?| ->]|?]; tauto);
        try (destruct H as [?|[[->|?] ?]]; tauto). }
  rewrite Hfold, elem_of_range, elem_of_empty. tauto.
Qed.



Lemma negb_is_candidate f n :
  negb (is_candidate f n) = bool_decide (n `mod` modulus f ∈ forbidden f).
Proof. unfold is_candidate, classify. by case_bool_decide. Qed.

(** The optimized checker's test [position in DART69_FORBIDDEN] on the
    position [n % 69] is [classify] at [dart69_filter_optimized]. *)
Lemma classify_optimized_in_forbidden n :
  bool_decide (get_dart69_position n ∈ DART69_FORBIDDEN) =
  negb (is_candidate dart69_filter_optimized n).
Proof. symmetry. exact (negb_is_candidate dart69_filter_optimized n). Qed.

Lemma elem_of_multiples_of_3 r :
  r ∈ multiples_of_3 ↔ 0 ≤ r < 69 ∧ r `mod` 3 = 0.
Proof.
  unfold multiples_of_3.
  rewrite elem_of_list_to_set, list_elem_of_filter, elem_of_range. tauto.
Qed.

(** [is_forbidden_position(get_dart69_position(n), False)] is [classify] at
    [dart69_filter_checker]. *)
Lemma classify_checker_is_forbidden n :
  is_forbidden_position (get_dart69_position n) false =
  negb (is_candidate dart69_filter_checker n).
Proof.
  rewrite negb_is_candidate.
  change (modulus dart69_filter_checker) with 69.
  change (forbidden dart69_filter_checker) with multiples_of_3.
  unfold is_forbidden_position, get_dart69_position.
  pose proof (Z.mod_pos_bound n 69 eq_refl) as Hb.
  rewrite andb_false_l.
  destruct (Z.eqb_spec ((n `mod` 69) `mod` 3) 0) as [H3|H3];
    case_bool_decide as Hin; rewrite elem_of_multiples_of_3 in Hin;
    try reflexivity; exfalso; tauto.
Qed.

End Classifier.

(** ** Scanning a range: [DART69Sieve] (dart69_python_sieve (1).py) *)

Module Dart69Sieve.
Import PyRange Outcome Float64 TrialDivision Classifier.

(** [DART69Sieve.dart69_filter]: the angular filter, then the digit filter. *)
Definition dart69_filter (n : Z) : bool :=
  let sector := n `mod` 69 in
  if ((sector `mod` 3 =? 0) || (sector `mod` 23 =? 0))
     && negb (bool_decide (n ∈ [3; 23]))
  then false
  else bool_decide (n `mod` 10 ∈ [1; 3; 7; 9]).

(** The body of the loop of [sieve_dimension]:
    [if self.dart69_filter(n): if self.is_prime(n): primes.append(n)],
    for two methods that return.  The two methods are arguments; the
    counters and the progress report of the loop do not reach the returned
    list. *)
Definition scan_step (filter_fn is_prime_fn : Z → bool)
    (primes : list Z) (n : Z) : list Z :=
  if filter_fn n then
    if is_prime_fn n then primes ++ [n] else primes
  else primes.

(** [primes = []; for n in range(start_num, end_num + 1): ...; return primes] *)
Definition scan_loop (filter_fn is_prime_fn : Z → bool)
    (start_num end_num : Z) : list Z :=
  foldl (scan_step filter_fn is_prime_fn) [] (range start_num (end_num + 1)).

(** The same body and loop for a primality test that may raise: the error
    ends the loop. *)
Definition sieve_step (filter_fn : Z → bool) (is_prime_fn : Z → outcome bool)
    (primes : list Z) (n : Z) : outcome (list Z) :=
  if filter_fn n then
    is_p ← is_prime_fn n;
    Returns (if is_p : bool then primes ++ [n] else primes)
  else Returns primes.

Definition sieve_loop (filter_fn : Z → bool) (is_prime_fn : Z → outcome bool)
    (start_num end_num : Z) : outcome (list Z) :=
  for_each (sieve_step filter_fn is_prime_fn) [] (range start_num (end_num + 1)).

(** [self.stats = {...}], stored between the loop and the [return].  The
    dictionary is not returned; what is kept of it are the divisions, in
    the order in which the entries are evaluated:
    ['numbers_per_second': total_numbers / total_time] converts the integer
    to a float and divides by the elapsed time,
    ['primes_per_second': len(primes) / total_time] divides by it again, and
    ['elimination_rate': (total_numbers - candidates_tested) / total_numbers]
    divides two integers.  ['hit_rate'] is guarded. *)
Definition store_stats (total_time : SpecFloat.spec_float) (total_numbers : Z)
    : outcome unit :=
  _ ← float_of_int total_numbers;
  match total_time with
  | SpecFloat.S754_zero _ => Raises ZeroDivisionError
  | _ => if total_numbers =? 0 then Raises ZeroDivisionError else Returns ()
  end.

Section Dimensions.
(** [math.floor(pi ** d)] *)
Variable floor_pi_pow : Z → Z.
(** [gmpy2.is_prime(n) != 0] *)
Variable gmpy2_is_prime : Z → bool.
(** [time.perf_counter() - start_time], read when the loop has ended *)
Variable total_time : SpecFloat.spec_float.

Record DART69Sieve := { use_gmpy2 : bool }.

Definition get_dimension_range (dimension : Z) : Z * Z :=
  if dimension =? 1 then (2, 3)
  else (floor_pi_pow (dimension - 1) + 1, floor_pi_pow dimension).

Definition is_prime_gmpy2 (n : Z) : bool :=
  if n <? 2 then false else gmpy2_is_prime n.

Definition is_prime (self : DART69Sieve) (n : Z) : outcome bool :=
  if use_gmpy2 self then Returns (is_prime_gmpy2 n) else is_prime_basic n.

(** [sieve_dimension(dimension, show_progress=False)], as
    [benchmark_performance] calls it: the loop, the statistics, the
    [return].  With [show_progress] the function also prints a progress
    report and the statistics, which change neither the list nor what is
    stored. *)
Definition sieve_dimension (self : DART69Sieve) (dimension : Z)
    : outcome (list Z) :=
  let '(start_num, end_num) := get_dimension_range dimension in
  let total_numbers := end_num - start_num + 1 in
  primes ← sieve_loop dart69_filter (is_prime self) start_num end_num;
  _ ← store_stats total_time total_numbers;
  Returns primes.

End Dimensions.

(** *** The loop is a filter of the range *)

Lemma scan_fold_filter (filter_fn is_prime_fn : Z → bool) l acc :
  foldl (scan_step filter_fn is_prime_fn) acc l =
  acc ++ filter (λ n, filter_fn n = true ∧ is_prime_fn n = true) l.
Proof.
  revert acc. induction l as [|n l IH]; intros acc; simpl.
  - by rewrite filter_nil, app_nil_r.
  - rewrite IH, filter_cons. unfold scan_step.
    destruct (filter_fn n); destruct (is_prime_fn n);
      (destruct (decide _) as [Hd|Hd];
       [try (destruct Hd; discriminate)|try (exfalso; apply Hd; by split)]);
      try reflexivity.
    by rewrite <- app_assoc.
Qed.

Lemma scan_loop_filter filter_fn is_prime_fn lo hi :
  scan_loop filter_fn is_prime_fn lo hi =
  filter (λ n, filter_fn n = true ∧ is_prime_fn n = true) (range lo (hi + 1)).
Proof. unfold scan_loop. by rewrite scan_fold_filter. Qed.

Lemma elem_of_scan_loop filter_fn is_prime_fn lo hi n :
  n ∈ scan_loop filter_fn is_prime_fn lo hi ↔
  lo ≤ n ≤ hi ∧ filter_fn n = true ∧ is_prime_fn n = true.
Proof.
  rewrite scan_loop_filter, list_elem_of_filter, elem_of_range. split.
  - intros [[? ?] ?]. repeat split; [lia|lia|done|done].
  - intros [? [? ?]]. repeat split; [done|done|lia|lia].
Qed.

Lemma sorted_scan_loop filter_fn is_prime_fn lo hi :
  StronglySorted Z.lt (scan_loop filter_fn is_prime_fn lo hi).
Proof.
  rewrite scan_loop_filter.
  apply Sieve.StronglySorted_filter_lt, StronglySorted_range.
Qed.

(** *** The loop with a test that may raise *)

(** [true] when the call returned [True]. *)
Definition returned_true (o : outcome bool) : bool :=
  match o with Returns true => true | _ => false end.

(** Whatever the test, a loop that returns has kept the numbers that passed
    the filter and on which the test returned [True]. *)
Lemma sieve_fold_returned filter_fn is_prime_fn l acc res :
  for_each (sieve_step filter_fn is_prime_fn) acc l = Returns res →
  res = foldl (scan_step filter_fn (λ n, returned_true (is_prime_fn n))) acc l.
Proof.
  revert acc. induction l as [|n l IH]; intros acc; cbn [for_each foldl].
  - by intros [= <-].
  - destruct (sieve_step filter_fn is_prime_fn acc n) as [a'|e] eqn:Hstep;
      cbn; [|done].
    assert (a' = scan_step filter_fn (λ n, returned_true (is_prime_fn n)) acc n)
      as <-; [|apply IH].
    unfold sieve_step in Hstep. unfold scan_step.
    destruct (filter_fn n); [|congruence].
    destruct (is_prime_fn n) as [[|]|e]; cbn in Hstep; cbn; congruence.
Qed.

Lemma sieve_loop_returned filter_fn is_prime_fn lo hi res :
  sieve_loop filter_fn is_prime_fn lo hi = Returns res →
  res = scan_loop filter_fn (λ n, returned_true (is_prime_fn n)) lo hi.
Proof. apply sieve_fold_returned. Qed.

(** When the test returns on every number of the range that passes the
    filter, the loop returns the list of the loop over the returned
    values. *)
Lemma sieve_loop_returns filter_fn is_prime_fn test lo hi :
  (∀ n, lo ≤ n ≤ hi → filter_fn n = true → is_prime_fn n = Returns (test n)) →
  sieve_loop filter_fn is_prime_fn lo hi = Returns (scan_loop filter_fn test lo hi).
Proof.
  intros Htest. unfold sieve_loop, scan_loop. apply for_each_returns.
  intros primes n [Hlo Hhi]%elem_of_range. unfold sieve_step, scan_step.
  destruct (filter_fn n) eqn:Hf; [|done].
  rewrite Htest by (done || lia). done.
Qed.

(** The statistics are stored when the number of numbers converts to a
    float and neither it nor the elapsed time is zero. *)
Lemma store_stats_returns total_time total_numbers :
  store_stats total_time total_numbers = Returns () ↔
  (∃ x, float_of_int total_numbers = Returns x) ∧
  (∀ s, total_time ≠ SpecFloat.S754_zero s) ∧ total_numbers ≠ 0.
Proof.
  unfold store_stats. destruct (float_of_int total_numbers) as [x|e]; cbn.
  - destruct (Z.eqb_spec total_numbers 0) as [Hz|Hz]; destruct total_time;
      split; try done; try (intros (_ & Ht & Hn); done);
      try (intros (_ & Ht & Hn); by exfalso; eapply Ht);
      intros _; (split; [by eexists|]); split; done.
  - split; [done|]. by intros [[x [=]] _].
Qed.

Lemma store_stats_zero total_time :
  store_stats total_time 0 = Raises ZeroDivisionError.
Proof. by destruct total_time. Qed.

(** *** The filter on primes *)

Lemma last_digit_of_prime p :
  Z.prime p → p `mod` 10 ∈ [1; 3; 7; 9] ↔ p ≠ 2 ∧ p ≠ 5.
Proof.
  intros [Hp1 Hp].
  pose proof (Z_div_mod_eq_full p 10) as H10.
  pose proof (Z.mod_pos_bound p 10 eq_refl) as Hb.
  rewrite !elem_of_cons, elem_of_nil. split.
  - intros Hd. split; intros ->; vm_compute in Hd; intuition discriminate.
  - intros [Hn2 Hn5].
    assert (p `mod` 10 = 0 ∨ p `mod` 10 = 1 ∨ p `mod` 10 = 2 ∨ p `mod` 10 = 3 ∨
            p `mod` 10 = 4 ∨ p `mod` 10 = 5 ∨ p `mod` 10 = 6 ∨ p `mod` 10 = 7 ∨
            p `mod` 10 = 8 ∨ p `mod` 10 = 9) as Hc by lia.
    assert (∀ d c, 1 < d → p = d * c → p = d) as Hdiv.
    { intros d c Hd Hpc. destruct (decide (p = d)) as [|Hne]; [done|].
      assert (0 < c) by nia.
      assert (c ≠ 1) by (intros ->; lia).
      exfalso. apply (Hp d); [nia|]. exists c. lia. }
    destruct Hc as [Hc|[Hc|[Hc|[Hc|[Hc|[Hc|[Hc|[Hc|[Hc|Hc]]]]]]]]];
      rewrite Hc in H10; auto 6; exfalso.
    + apply Hn2, (Hdiv 2 (5 * (p `div` 10))); lia.
    + apply Hn2, (Hdiv 2 (5 * (p `div` 10) + 1)); lia.
    + apply Hn2, (Hdiv 2 (5 * (p `div` 10) + 2)); lia.
    + apply Hn5, (Hdiv 5 (2 * (p `div` 10) + 1)); lia.
    + apply Hn2, (Hdiv 2 (5 * (p `div` 10) + 3)); lia.
    + apply Hn2, (Hdiv 2 (5 * (p `div` 10) + 4)); lia.
Qed.

(** A sector [n % 69] divisible by [q ∈ {3, 23}] makes [n] divisible by [q]. *)
Lemma sector_divisible n q :
  (q | 69) → 0 < q → (n `mod` 69) `mod` q = 0 → (q | n).
Proof.
  intros Hq69 Hq Hs. apply Z.mod_divide in Hs; [|lia].
  rewrite (Z_div_mod_eq_full n 69).
  apply Z.divide_add_r; [|done].
  by apply Z.divide_mul_l.
Qed.

Lemma angular_filter_of_prime p :
  Z.prime p →
  ((p `mod` 69) `mod` 3 =? 0) || ((p `mod` 69) `mod` 23 =? 0) = true →
  p ∈ [3; 23].
Proof.
  intros [Hp1 Hp] Hor. apply orb_true_iff in Hor as [H3|H23].
  - apply Z.eqb_eq in H3. apply sector_divisible in H3; [|by exists 23|done].
    destruct (decide (p = 3)) as [->|Hne]; [left|].
    exfalso. apply (Hp 3); [|done]. destruct H3 as [c Hc]. lia.
  - apply Z.eqb_eq in H23. apply sector_divisible in H23; [|by exists 3|done].
    destruct (decide (p = 23)) as [->|Hne]; [right; left|].
    exfalso. apply (Hp 23); [|done]. destruct H23 as [c Hc]. lia.
Qed.

Lemma dart69_filter_of_prime p :
  Z.prime p → dart69_filter p = true ↔ p ≠ 2 ∧ p ≠ 5.
Proof.
  intros Hp. unfold dart69_filter.
  rewrite <- (last_digit_of_prime p Hp).
  destruct (((p `mod` 69) `mod` 3 =? 0) || ((p `mod` 69) `mod` 23 =? 0)) eqn:Hang.
  - rewrite (bool_decide_eq_true_2 _ (angular_filter_of_prime p Hp Hang)).
    simpl. apply bool_decide_eq_true.
  - simpl. apply bool_decide_eq_true.
Qed.

Lemma dart69_filter_last_digit n :
  dart69_filter n = true → n `mod` 10 ∈ [1; 3; 7; 9].
Proof.
  unfold dart69_filter.
  destruct (_ && _); [done|]. apply bool_decide_eq_true.
Qed.

End Dart69Sieve.

(** ** [PrimeVerificationSuite] (prime_verification_for_Trinity.py) *)

Module Suite.
Import Outcome Float64 Sieve TrialDivision.

Record PrimeVerificationSuite := {
  max_n : Z;
  primes : list Z;
  prime_set : gset Z
}.

(** [__init__]: [self.primes = self._sieve_of_eratosthenes(max_n)] and
    [self.prime_set = set(self.primes)]. *)
Definition init (max_n : Z) : PrimeVerificationSuite :=
  let primes := sieve_of_eratosthenes max_n in
  {| max_n := max_n; primes := primes; prime_set := list_to_set primes |}.

(** [return n in self.prime_set if n <= self.max_n else self._trial_division(n)].
    The body has no [raise]; an error can only come out of
    [_trial_division]. *)
Definition is_prime (pow_half : SpecFloat.spec_float → SpecFloat.spec_float)
    (self : PrimeVerificationSuite) (n : Z) : outcome bool :=
  if n <=? max_n self then Returns (bool_decide (n ∈ prime_set self))
  else trial_division pow_half n.

Lemma elem_of_prime_set m k : k ∈ prime_set (init m) ↔ 0 ≤ k ≤ m ∧ Z.prime k.
Proof.
  unfold init. cbn [prime_set].
  by rewrite elem_of_list_to_set, elem_of_sieve_of_eratosthenes.
Qed.

(** Within the bound the answer is read from the set, and is exact. *)
Lemma is_prime_within pow_half m k :
  k ≤ m → is_prime pow_half (init m) k = Returns (odd_trial_division k).
Proof.
  intros Hk. unfold is_prime. change (max_n (init m)) with m.
  destruct (Z.leb_spec k m); [|lia]. f_equal. apply eq_true_iff_eq.
  rewrite bool_decide_eq_true, elem_of_prime_set, odd_trial_division_correct.
  split; [by intros [_ ?]|]. intros Hp. split; [|done]. destruct Hp. lia.
Qed.

(** Beyond the bound the answer is that of [_trial_division]. *)
Lemma is_prime_beyond pow_half m k :
  m < k → is_prime pow_half (init m) k = trial_division pow_half k.
Proof.
  intros Hk. unfold is_prime. change (max_n (init m)) with m.
  by destruct (Z.leb_spec k m); [lia|].
Qed.

Lemma is_prime_returns pow_half m k :
  (m < k → 3 ≤ k → pow_exact pow_half k) →
  is_prime pow_half (init m) k = Returns (odd_trial_division k).
Proof.
  intros Hs. destruct (Z_le_gt_dec k m) as [Hle|Hgt].
  - by apply is_prime_within.
  - rewrite is_prime_beyond by lia. apply trial_division_returns.
    intros ?. apply Hs; [lia|done].
Qed.

Lemma is_prime_of_prime pow_half m k :
  (m < k → 3 ≤ k → pow_exact pow_half k) →
  Z.prime k → is_prime pow_half (init m) k = Returns true.
Proof.
  intros Hs Hp. rewrite is_prime_returns by done.
  f_equal. by apply odd_trial_division_correct.
Qed.

Lemma is_prime_of_not_prime pow_half m k :
  (m < k → 3 ≤ k → pow_exact pow_half k) →
  ¬ Z.prime k → is_prime pow_half (init m) k = Returns false.
Proof.
  intros Hs Hp. rewrite is_prime_returns by done.
  f_equal. by apply odd_trial_division_false.
Qed.

End Suite.

(** ** π-dimension of a number (both checkers) *)

Module Dimension.

Section WithPi.
(** [math.floor(pi ** d)] *)
Variable floor_pi_pow : Z → Z.

(** The [while True] loop of [get_dimension_for_number], entered with
    [d = 1]; it leaves at the latest when [d] exceeds 100, so 100 rounds
    of fuel are never used up. *)
Fixpoint dimension_loop (fuel : nat) (n d : Z) : Z :=
  match fuel with
  | O => d
  | S fuel' =>
      let upper_bound := floor_pi_pow d in
      if n <=? upper_bound then d
      else
        let d := d + 1 in
        if d >? 100 then d else dimension_loop fuel' n d
  end.

Definition get_dimension_for_number (n : Z) : Z :=
  if n <=? 1 then 0 else dimension_loop 100 n 1.

(** More fuel does not change the result: the loop returns by itself. *)
Lemma dimension_loop_fuel f1 f2 n d :
  d ≤ 100 → (Z.to_nat (101 - d) ≤ f1)%nat → (Z.to_nat (101 - d) ≤ f2)%nat →
  dimension_loop f1 n d = dimension_loop f2 n d.
Proof.
  revert f2 d. induction f1 as [|f1 IH]; intros f2 d Hd H1 H2; [lia|].
  destruct f2 as [|f2]; [lia|]. simpl.
  destruct (n <=? floor_pi_pow d); [done|].
  destruct (Z.gtb_spec (d + 1) 100) as [|Hle]; [done|].
  apply IH; lia.
Qed.

Lemma dimension_loop_range fuel n d :
  1 ≤ d ≤ 100 → 1 ≤ dimension_loop fuel n d ≤ 101.
Proof.
  revert d. induction fuel as [|fuel IH]; intros d Hd; simpl; [lia|].
  destruct (n <=? floor_pi_pow d); [lia|].
  destruct (Z.gtb_spec (d + 1) 100) as [|Hle]; [lia|].
  apply IH. lia.
Qed.

End WithPi.

End Dimension.

(** ** The precheck of dart69_prime_checker.py *)

Module Checker.
Import Classifier Dimension.

Section WithPi.
Variable floor_pi_pow : Z → Z.

(** [dart69_precheck]: the verdict [could_be_prime] and the position (the
    reason text and the floating-point angle are left out). *)
Definition dart69_precheck (n : Z) : bool * Z :=
  if n <? 2 then (false, 0)
  else if n =? 2 then (true, 2)
  else if n =? 3 then (true, 3)
  else if n `mod` 2 =? 0 then (false, get_dart69_position n)
  else
    let position := get_dart69_position n in
    let dimension := get_dimension_for_number floor_pi_pow n in
    let allow_exceptions := dimension <=? 3 in
    if is_forbidden_position position allow_exceptions then (false, position)
    else (true, position).

End WithPi.

End Checker.

(** ** The precheck of Prime Checker 2 DART_69_Optimized.py *)

Module Optimized.
Import Classifier Dimension.

Section WithPi.
Variable floor_pi_pow : Z → Z.

Definition get_dimension_range (dimension : Z) : Z * Z :=
  (floor_pi_pow (dimension - 1) + 1, floor_pi_pow dimension).

(** The position relative to the start of the number's dimension. *)
Definition get_dart69_position (n : Z) : Z :=
  let dimension := get_dimension_for_number floor_pi_pow n in
  let '(start, _) := get_dimension_range dimension in
  let relative_position := n - start in
  relative_position `mod` 69.

Definition dart69_precheck (n : Z) : bool * Z :=
  let position := get_dart69_position n in
  if bool_decide (position ∈ DART69_FORBIDDEN) then (false, position)
  else (true, position).

(** [last_digit_precheck]: the verdict. *)
Definition last_digit_precheck (n : Z) : bool :=
  let last_digit := n `mod` 10 in
  if n =? 2 then true
  else if n =? 5 then true
  else if bool_decide (last_digit ∈ [0; 2; 4; 5; 6; 8]) then false
  else true.

End WithPi.

End Optimized.

(** ** Generation by wheel position (Large_Prime_number_Generator.py) *)

Module Generator.
Import PyRange Outcome Float64 TrialDivision.

(** [generate_allowed_positions]: the loop over [range(69)]. *)
Definition generate_allowed_positions : list Z :=
  foldl (λ allowed pos,
           if pos `mod` 3 =? 0 then
             if bool_decide (pos ∈ [3; 23]) then allowed ++ [pos] else allowed
           else allowed ++ [pos])
        [] (range 0 69).

(** The first number [≥ min_n] on wheel position [pos]. *)
Definition first_candidate (min_n pos : Z) : Z :=
  let start_num := min_n in
  let remainder := start_num `mod` 69 in
  if remainder <=? pos then start_num + (pos - remainder)
  else start_num + (69 - remainder + pos).

(** The candidates of one position:
    [candidate = first_candidate; while candidate <= max_n: ...; candidate += 69]. *)
Definition position_candidates (min_n max_n pos : Z) : list Z :=
  range_step (first_candidate min_n pos) (max_n + 1) 69.

Lemma first_candidate_spec min_n pos :
  0 ≤ pos < 69 →
  min_n ≤ first_candidate min_n pos < min_n + 69 ∧
  first_candidate min_n pos `mod` 69 = pos.
Proof.
  intros Hpos. unfold first_candidate.
  pose proof (Z.mod_pos_bound min_n 69 eq_refl) as Hb.
  pose proof (Z_div_mod_eq_full min_n 69) as Hd.
  destruct (Z.leb_spec (min_n `mod` 69) pos) as [Hle|Hgt].
  - split; [lia|].
    replace (min_n + (pos - min_n `mod` 69)) with (pos + (min_n `div` 69) * 69) by lia.
    rewrite Z_mod_plus_full. by apply Z.mod_small.
  - split; [lia|].
    replace (min_n + (69 - min_n `mod` 69 + pos))
      with (pos + (min_n `div` 69 + 1) * 69) by lia.
    rewrite Z_mod_plus_full. by apply Z.mod_small.
Qed.

Lemma elem_of_position_candidates min_n max_n pos c :
  0 ≤ pos < 69 →
  c ∈ position_candidates min_n max_n pos ↔ min_n ≤ c ≤ max_n ∧ c `mod` 69 = pos.
Proof.
  intros Hpos. unfold position_candidates.
  destruct (first_candidate_spec min_n pos Hpos) as [Hf Hfm].
  rewrite elem_of_range_step by done.
  pose proof (Z_div_mod_eq_full c 69) as Hc.
  pose proof (Z_div_mod_eq_full (first_candidate min_n pos) 69) as Hfd.
  pose proof (Z_div_mod_eq_full (c - first_candidate min_n pos) 69) as Hcf.
  pose proof (Z.mod_pos_bound c 69 eq_refl).
  pose proof (Z.mod_pos_bound (c - first_candidate min_n pos) 69 eq_refl).
  rewrite Hfm in Hfd. split.
  - intros [Hr Hm]. rewrite Hm in Hcf. split; [lia|]. lia.
  - intros [Hr Hm]. rewrite Hm in Hc. split; lia.
Qed.

(** [if is_prime_fast(candidate): primes_found.append(candidate)] *)
Definition test_candidate (primes_found : list Z) (candidate : Z)
    : outcome (list Z) :=
  is_p ← is_prime_fast candidate;
  Returns (if is_p : bool then primes_found ++ [candidate] else primes_found).

(** [for pos in allowed_positions: ...], with the loop over the candidates
    of the position inside. *)
Definition generate_loop (min_n max_n : Z) (allowed_positions : list Z)
    : outcome (list Z) :=
  for_each (λ primes_found pos,
              for_each test_candidate primes_found
                       (position_candidates min_n max_n pos))
           [] allowed_positions.

(** The loop, then [primes_found.sort()]. *)
Definition generate_in_range (min_n max_n : Z) (allowed_positions : list Z)
    : outcome (list Z) :=
  primes_found ← generate_loop min_n max_n allowed_positions;
  Returns (merge_sort Z.le primes_found).

Section WithPi.
(** [math.floor(pi ** d)] *)
Variable floor_pi_pow : Z → Z.

Definition get_dimension_range (d : Z) : Z * Z :=
  (floor_pi_pow (d - 1) + 1, floor_pi_pow d).

(** [generate_primes_by_formula] without gmpy2; the printing and the
    timing are left out. *)
Definition generate_primes_by_formula (dimension : Z) (include_exceptions : bool)
    : outcome (list Z) :=
  let '(min_n, max_n) := get_dimension_range dimension in
  let allowed_positions := generate_allowed_positions in
  let allowed_positions :=
    if negb include_exceptions || (dimension >? 3)
    then filter (λ pos, pos ∉ [3; 23]) allowed_positions
    else allowed_positions in
  generate_in_range min_n max_n allowed_positions.
End WithPi.

(** *** The loops when every test returns

    [primes_of_positions] is the list the two loops build when
    [is_prime_fast] returns the value of trial division up to [⌊√n⌋] on
    every candidate. *)

Definition keep_prime (primes_found : list Z) (candidate : Z) : list Z :=
  if odd_trial_division candidate then primes_found ++ [candidate]
  else primes_found.

Definition primes_of_positions (min_n max_n : Z) (allowed_positions : list Z)
    : list Z :=
  foldl (λ primes_found pos,
           foldl keep_prime primes_found (position_candidates min_n max_n pos))
        [] allowed_positions.

Lemma test_candidate_returns primes_found candidate :
  (3 ≤ candidate → sqrt_exact candidate) →
  test_candidate primes_found candidate =
  Returns (keep_prime primes_found candidate).
Proof.
  intros Hs. unfold test_candidate, keep_prime.
  by rewrite is_prime_fast_returns.
Qed.

Lemma generate_loop_returns min_n max_n ps :
  Forall (λ pos, 0 ≤ pos < 69) ps →
  (∀ c, min_n ≤ c ≤ max_n → 3 ≤ c → sqrt_exact c) →
  generate_loop min_n max_n ps = Returns (primes_of_positions min_n max_n ps).
Proof.
  intros Hps Hs. rewrite Forall_forall in Hps.
  unfold generate_loop, primes_of_positions. apply for_each_returns.
  intros primes_found pos Hpos. apply for_each_returns.
  intros acc c [Hc _]%elem_of_position_candidates; [|by apply Hps].
  apply test_candidate_returns. by apply Hs.
Qed.

Lemma keep_prime_fold l acc :
  foldl keep_prime acc l = acc ++ filter (λ c, odd_trial_division c = true) l.
Proof.
  revert acc. induction l as [|c l IH]; intros acc; simpl.
  - by rewrite filter_nil, app_nil_r.
  - rewrite IH, filter_cons. unfold keep_prime.
    destruct (odd_trial_division c); destruct (decide _); try done.
    by rewrite <- app_assoc.
Qed.

Lemma primes_of_positions_bind min_n max_n ps :
  primes_of_positions min_n max_n ps =
  ps ≫= (λ pos, filter (λ c, odd_trial_division c = true)
                        (position_candidates min_n max_n pos)).
Proof.
  unfold primes_of_positions. rewrite <- (app_nil_l (ps ≫= _)).
  generalize (@nil Z). induction ps as [|pos ps IH]; intros acc.
  - simpl. by rewrite app_nil_r.
  - rewrite bind_cons. cbn [foldl]. rewrite IH, keep_prime_fold.
    by rewrite app_assoc.
Qed.

Lemma NoDup_range_step lo hi step : 0 < step → NoDup (range_step lo hi step).
Proof.
  intros Hs. unfold range_step. apply NoDup_fmap_2_strong; [|apply NoDup_seqZ].
  intros x y _ _ Heq. nia.
Qed.

Lemma elem_of_primes_of_positions min_n max_n ps c :
  Forall (λ pos, 0 ≤ pos < 69) ps →
  c ∈ primes_of_positions min_n max_n ps ↔
  min_n ≤ c ≤ max_n ∧ c `mod` 69 ∈ ps ∧ Z.prime c.
Proof.
  intros Hps. rewrite Forall_forall in Hps.
  rewrite primes_of_positions_bind, list_elem_of_bind. split.
  - intros (pos & [Hp Hc]%list_elem_of_filter & Hpos).
    apply elem_of_position_candidates in Hc as [? <-]; [|by apply Hps].
    by rewrite <- odd_trial_division_correct.
  - intros (Hr & Hpos & Hp). exists (c `mod` 69). split; [|done].
    apply list_elem_of_filter. split; [by apply odd_trial_division_correct|].
    apply elem_of_position_candidates; [by apply Hps|done].
Qed.

Lemma NoDup_primes_of_positions min_n max_n ps :
  Forall (λ pos, 0 ≤ pos < 69) ps → NoDup ps →
  NoDup (primes_of_positions min_n max_n ps).
Proof.
  intros Hps Hnd. rewrite Forall_forall in Hps.
  rewrite primes_of_positions_bind. apply NoDup_bind; [| |done].
  - intros p1 p2 c H1 H2 [_ Hc1]%list_elem_of_filter [_ Hc2]%list_elem_of_filter.
    apply elem_of_position_candidates in Hc1 as [_ <-]; [|by apply Hps].
    by apply elem_of_position_candidates in Hc2 as [_ <-]; [|by apply Hps].
  - intros pos _. apply NoDup_filter, NoDup_range_step. done.
Qed.

Lemma StronglySorted_lt_le l : StronglySorted Z.lt l → StronglySorted Z.le l.
Proof.
  induction 1 as [|x l Hl IH Hx]; constructor; [done|].
  eapply Forall_impl; [exact Hx|]. intros y Hy. simpl in Hy. lia.
Qed.

(** Sorting the primes found gives the primes of the range on the allowed
    positions, in ascending order. *)
Lemma sorted_primes_of_positions min_n max_n ps :
  Forall (λ pos, 0 ≤ pos < 69) ps → NoDup ps →
  merge_sort Z.le (primes_of_positions min_n max_n ps) =
  filter (λ c, c `mod` 69 ∈ ps ∧ odd_trial_division c = true)
         (range min_n (max_n + 1)).
Proof.
  intros Hps Hnd. apply (StronglySorted_unique Z.le).
  - apply StronglySorted_merge_sort; apply _.
  - apply StronglySorted_lt_le, Sieve.StronglySorted_filter_lt,
      StronglySorted_range.
  - rewrite merge_sort_Permutation. apply NoDup_Permutation.
    + by apply NoDup_primes_of_positions.
    + apply NoDup_filter, NoDup_seqZ.
    + intros c. rewrite elem_of_primes_of_positions by done.
      rewrite list_elem_of_filter, elem_of_range, odd_trial_division_correct.
      split; [intros (? & ? & ?)|intros ((? & ?) & ?)];
        (split; [|lia || done]); (split; [lia || done|lia || done]).
Qed.

Lemma generate_in_range_returns min_n max_n ps :
  Forall (λ pos, 0 ≤ pos < 69) ps → NoDup ps →
  (∀ c, min_n ≤ c ≤ max_n → 3 ≤ c → sqrt_exact c) →
  generate_in_range min_n max_n ps =
  Returns (filter (λ c, c `mod` 69 ∈ ps ∧ odd_trial_division c = true)
                  (range min_n (max_n + 1))).
Proof.
  intros Hps Hnd Hs. unfold generate_in_range.
  rewrite generate_loop_returns by done. cbn.
  by rewrite sorted_primes_of_positions.
Qed.

Lemma allowed_positions_valid :
  Forall (λ pos, 0 ≤ pos < 69) generate_allowed_positions ∧
  NoDup generate_allowed_positions.
Proof. split; compute_done. Qed.

Lemma late_allowed_positions_valid :
  Forall (λ pos, 0 ≤ pos < 69) (filter (λ pos, pos ∉ [3; 23]) generate_allowed_positions) ∧
  NoDup (filter (λ pos, pos ∉ [3; 23]) generate_allowed_positions).
Proof. split; compute_done. Qed.

End Generator.

(** ** The two prechecks compared *)

Module Prechecks.
Import Classifier Dimension.

Lemma is_forbidden_position_false pos allow :
  is_forbidden_position pos allow = false ↔
  pos `mod` 3 ≠ 0 ∨ (allow = true ∧ pos = 3).
Proof.
  unfold is_forbidden_position.
  destruct (Z.eqb_spec (pos `mod` 3) 0) as [H3|H3]; [|by split; [left|]].
  destruct allow; simpl.
  - case_bool_decide as Hin; rewrite !elem_of_cons, elem_of_nil in Hin.
    + split; [intros _; right; split; [done|]|done].
      destruct Hin as [->|[->|[]]]; [done|]. by vm_compute in H3.
    + split; [done|]. intros [?|[_ ->]]; [done|]. exfalso. apply Hin. by left.
  - split; [done|]. by intros [?|[? _]].
Qed.

(** The verdict of dart69_prime_checker.py on [n ≥ 5]: [n] is odd and not
    a multiple of 3, or sits on the exempt position 3 of an early
    dimension. *)
Lemma checker_verdict fp n :
  5 ≤ n →
  (Checker.dart69_precheck fp n).1 = true ↔
  n `mod` 2 ≠ 0 ∧
  (n `mod` 3 ≠ 0 ∨ (get_dimension_for_number fp n ≤ 3 ∧ n `mod` 69 = 3)).
Proof.
  intros Hn. unfold Checker.dart69_precheck.
  destruct (Z.ltb_spec n 2); [lia|].
  destruct (Z.eqb_spec n 2); [lia|].
  destruct (Z.eqb_spec n 3); [lia|].
  destruct (Z.eqb_spec (n `mod` 2) 0) as [Hev|Hodd]; simpl.
  { split; [done|]. by intros [? _]. }
  pose proof (is_forbidden_position_false (get_dart69_position n)
                (get_dimension_for_number fp n <=? 3)) as Hforb.
  unfold get_dart69_position in *.
  rewrite Z.mod_mod_divide in Hforb by (by exists 23).
  rewrite Z.leb_le in Hforb.
  destruct (is_forbidden_position _ _); simpl.
  - split; [done|]. intros [_ Hex]. by apply Hforb in Hex.
  - split; [|done]. intros _. split; [done|]. by apply Hforb.
Qed.

(** The verdict of the optimized checker: the position relative to the
    start of the dimension is a multiple neither of 3 nor of 23. *)
Lemma optimized_verdict fp n :
  (Optimized.dart69_precheck fp n).1 = true ↔
  Optimized.get_dart69_position fp n `mod` 3 ≠ 0 ∧
  Optimized.get_dart69_position fp n `mod` 23 ≠ 0.
Proof.
  unfold Optimized.dart69_precheck.
  assert (0 ≤ Optimized.get_dart69_position fp n < 69) as Hb.
  { unfold Optimized.get_dart69_position.
    destruct (Optimized.get_dimension_range _ _). by apply Z.mod_pos_bound. }
  case_bool_decide as Hin; rewrite elem_of_DART69_FORBIDDEN in Hin; simpl.
  - split; [done|]. intros [? ?]. destruct Hin as [_ [?|?]]; done.
  - split; [|done]. intros _. split; intros ?; apply Hin; split; auto.
Qed.

Lemma optimized_position_mod_3 fp n :
  (Optimized.get_dimension_range fp (get_dimension_for_number fp n)).1 `mod` 3 = 0 →
  Optimized.get_dart69_position fp n `mod` 3 = n `mod` 3.
Proof.
  unfold Optimized.get_dart69_position.
  destruct (Optimized.get_dimension_range _ _) as [start e]. simpl.
  intros Hs. rewrite Z.mod_mod_divide by (by exists 23).
  rewrite Zminus_mod, Hs, Z.sub_0_r. by rewrite Z.mod_mod.
Qed.

End Prechecks.

(** * The specification's claims *)

Import PyRange Divisors Outcome Float64 Sieve TrialDivision Classifier.
Import Dart69Sieve Dimension Prechecks.













(** The other scan of the code, by allowed wheel positions, returns the
    eight primes on [[0, 20]]. *)
Lemma generate_0_20 :
  Generator.generate_in_range 0 20 Generator.generate_allowed_positions =
  Returns [2; 3; 5; 7; 11; 13; 17; 19].
Proof. by vm_compute. Qed.

(** C6 as stated fails on its last part: [is_prime(-5)] returns [False];
    it raises no [InvalidInput]. *)
Lemma is_prime_negative_returns_false :
  Suite.is_prime rounded_pow_half (Suite.init 100) (-5) = Returns false ∧
  Suite.is_prime rounded_pow_half (Suite.init 100) (-5) ≠ Raises InvalidInput ∧
  trial_division rounded_pow_half (-5) = Returns false.
Proof. split; [vm_compute; reflexivity|]. split; [discriminate|reflexivity]. Qed.

(** C6 (amended): the sieve for 0 and for 1 is empty; whatever the bound
    of the suite, [is_prime(2)] returns true, [is_prime(1)] returns false,
    and [is_prime] of a negative number such as -5 returns false. *)
Theorem boundaries_of_sieve_and_is_prime :
  sieve_of_eratosthenes 0 = [] ∧
  sieve_of_eratosthenes 1 = [] ∧
  (∀ pow_half m, Suite.is_prime pow_half (Suite.init m) 2 = Returns true) ∧
  (∀ pow_half m, Suite.is_prime pow_half (Suite.init m) 1 = Returns false) ∧
  (∀ pow_half m, Suite.is_prime pow_half (Suite.init m) (-5) = Returns false) ∧
  (∀ pow_half m n, n < 0 →
     Suite.is_prime pow_half (Suite.init m) n = Returns false).
Proof.
  split; [reflexivity|]. split; [reflexivity|].
  split; [intros pow_half m;
          apply Suite.is_prime_of_prime; [lia|apply Z.prime_2]|].
  split; [intros pow_half m;
          apply Suite.is_prime_of_not_prime; [lia|apply Z.not_prime_1]|].
  split.
  - intros pow_half m.
    apply Suite.is_prime_of_not_prime; [lia|]. apply not_prime_lt_2. lia.
  - intros pow_half m n Hn.
    apply Suite.is_prime_of_not_prime; [lia|]. apply not_prime_lt_2. lia.
Qed.



(** C8: on a prime [p], [dart69_filter] returns true if and only if [p] is
    neither 2 nor 5. *)
Theorem dart69_filter_rejects_only_2_and_5 (p : Z) :
  Z.prime p → dart69_filter p = true ↔ p ≠ 2 ∧ p ≠ 5.
Proof. apply dart69_filter_of_prime. Qed.

Lemma dart69_filter_rejects_only_2_and_5_witness :
  Z.prime 23 ∧ (dart69_filter 23 = true ↔ 23 ≠ 2 ∧ 23 ≠ 5).
Proof.
  assert (Z.prime 23) as Hp by (by apply odd_trial_division_correct).
  split; [done|]. by apply (dart69_filter_rejects_only_2_and_5 23).
Defined.

(** C9: every element of the list [sieve_dimension] returns, for every
    dimension [≥ 1] (whatever the dimension's bounds and whichever primality
    test is in use), ends in 1, 3, 7 or 9; 2 and 5 are never among them. *)
Theorem sieve_dimension_last_digits
    (floor_pi_pow : Z → Z) (gmpy2_is_prime : Z → bool)
    (total_time : SpecFloat.spec_float)
    (self : DART69Sieve) (dimension : Z) (primes : list Z) (x : Z) :
  1 ≤ dimension →
  sieve_dimension floor_pi_pow gmpy2_is_prime total_time self dimension
    = Returns primes →
  x ∈ primes →
  x `mod` 10 ∈ [1; 3; 7; 9] ∧ x ≠ 2 ∧ x ≠ 5.
Proof.
  intros _. unfold sieve_dimension.
  destruct (get_dimension_range floor_pi_pow dimension) as [start_num end_num].
  destruct (sieve_loop _ _ _ _) as [found|e] eqn:Hloop; [|done].
  cbn. destruct (store_stats _ _); [|done]. cbn. intros [= <-].
  apply sieve_loop_returned in Hloop as ->.
  intros (_ & Hf & _)%elem_of_scan_loop.
  apply dart69_filter_last_digit in Hf.
  split; [done|]. rewrite !elem_of_cons, elem_of_nil in Hf.
  split; intros ->; vm_compute in Hf; intuition discriminate.
Qed.

Lemma sieve_dimension_last_digits_witness :
  (1 ≤ 3 ∧
   sieve_dimension Pi.floor_pi_pow_dec (λ _, false) one_second
                   {| use_gmpy2 := false |} 3
     = Returns [11; 13; 17; 19; 23; 29; 31] ∧
   13 ∈ [11; 13; 17; 19; 23; 29; 31]) ∧
  13 `mod` 10 ∈ [1; 3; 7; 9] ∧ 13 ≠ 2 ∧ 13 ≠ 5.
Proof.
  assert (sieve_dimension Pi.floor_pi_pow_dec (λ _, false) one_second
            {| use_gmpy2 := false |} 3
          = Returns [11; 13; 17; 19; 23; 29; 31]) as Hret by (by vm_compute).
  assert (13 ∈ [11; 13; 17; 19; 23; 29; 31]) as Hin by (right; left).
  split; [split; [lia|split; [exact Hret|exact Hin]]|].
  apply (sieve_dimension_last_digits Pi.floor_pi_pow_dec (λ _, false) one_second
           {| use_gmpy2 := false |} 3 [11; 13; 17; 19; 23; 29; 31] 13);
    [lia|exact Hret|exact Hin].
Defined.

(** The dimensions that contain 2 and 5 do not return them. *)
Lemma sieve_dimension_1_and_2 :
  sieve_dimension Pi.floor_pi_pow_dec (λ _, false) one_second
                  {| use_gmpy2 := false |} 1 = Returns [3] ∧
  get_dimension_range Pi.floor_pi_pow_dec 1 = (2, 3) ∧
  sieve_dimension Pi.floor_pi_pow_dec (λ _, false) one_second
                  {| use_gmpy2 := false |} 2 = Returns [7] ∧
  get_dimension_range Pi.floor_pi_pow_dec 2 = (4, 9).
Proof. vm_compute. done. Qed.

(** C10 as stated fails: at 6 the first precheck says no (even) and the
    optimized one yes (relative position 2); at 7 the first says yes
    (position 7) and the optimized one no (relative position 3). *)
Lemma prechecks_differ_at_6_and_7 :
  Checker.dart69_precheck Pi.floor_pi_pow_dec 6 = (false, 6) ∧
  Optimized.dart69_precheck Pi.floor_pi_pow_dec 6 = (true, 2) ∧
  Checker.dart69_precheck Pi.floor_pi_pow_dec 7 = (true, 7) ∧
  Optimized.dart69_precheck Pi.floor_pi_pow_dec 7 = (false, 3).
Proof. vm_compute. done. Qed.

(** C10 (amended): for [n ≥ 5] the precheck of dart69_prime_checker.py
    passes [n] exactly when [n] is odd and either not a multiple of 3 or on
    the exempt position 3 of a dimension [≤ 3]; the optimized precheck
    passes [n] exactly when its position relative to the start of its
    dimension is a multiple neither of 3 nor of 23.  The two verdicts are
    equal when [n] is odd, its dimension exceeds 3, the start of its
    dimension is a multiple of 3 and its relative position is not a
    multiple of 23. *)
Theorem prechecks_compared (floor_pi_pow : Z → Z) (n : Z) :
  5 ≤ n →
  ((Checker.dart69_precheck floor_pi_pow n).1 = true ↔
     n `mod` 2 ≠ 0 ∧
     (n `mod` 3 ≠ 0 ∨
      (get_dimension_for_number floor_pi_pow n ≤ 3 ∧ n `mod` 69 = 3))) ∧
  ((Optimized.dart69_precheck floor_pi_pow n).1 = true ↔
     Optimized.get_dart69_position floor_pi_pow n `mod` 3 ≠ 0 ∧
     Optimized.get_dart69_position floor_pi_pow n `mod` 23 ≠ 0) ∧
  (n `mod` 2 = 1 →
   3 < get_dimension_for_number floor_pi_pow n →
   (Optimized.get_dimension_range floor_pi_pow
      (get_dimension_for_number floor_pi_pow n)).1 `mod` 3 = 0 →
   Optimized.get_dart69_position floor_pi_pow n `mod` 23 ≠ 0 →
   (Checker.dart69_precheck floor_pi_pow n).1 =
   (Optimized.dart69_precheck floor_pi_pow n).1).
Proof.
  intros Hn. split; [by apply checker_verdict|].
  split; [apply optimized_verdict|].
  intros Hodd Hdim Hstart H23. apply eq_true_iff_eq.
  rewrite checker_verdict, optimized_verdict by done.
  rewrite optimized_position_mod_3 by done. split.
  - intros [_ [?|[? _]]]; [done|lia].
  - intros [? _]. split; [lia|by left].
Qed.

Lemma prechecks_compared_witness :
  5 ≤ 3023 ∧
  ((Checker.dart69_precheck Pi.floor_pi_pow_dec 3023).1 = true ↔
     3023 `mod` 2 ≠ 0 ∧
     (3023 `mod` 3 ≠ 0 ∨
      (get_dimension_for_number Pi.floor_pi_pow_dec 3023 ≤ 3 ∧ 3023 `mod` 69 = 3))) ∧
  ((Optimized.dart69_precheck Pi.floor_pi_pow_dec 3023).1 = true ↔
     Optimized.get_dart69_position Pi.floor_pi_pow_dec 3023 `mod` 3 ≠ 0 ∧
     Optimized.get_dart69_position Pi.floor_pi_pow_dec 3023 `mod` 23 ≠ 0) ∧
  (3023 `mod` 2 = 1 →
   3 < get_dimension_for_number Pi.floor_pi_pow_dec 3023 →
   (Optimized.get_dimension_range Pi.floor_pi_pow_dec
      (get_dimension_for_number Pi.floor_pi_pow_dec 3023)).1 `mod` 3 = 0 →
   Optimized.get_dart69_position Pi.floor_pi_pow_dec 3023 `mod` 23 ≠ 0 →
   (Checker.dart69_precheck Pi.floor_pi_pow_dec 3023).1 =
   (Optimized.dart69_precheck Pi.floor_pi_pow_dec 3023).1).
Proof.
  split; [lia|]. apply (prechecks_compared Pi.floor_pi_pow_dec 3023). lia.
Defined.

(** The hypotheses of the agreement hold at 3023 (dimension 8, which starts
    at 3021), where both prechecks say yes. *)
Lemma prechecks_agree_at_3023 :
  3023 `mod` 2 = 1 ∧
  get_dimension_for_number Pi.floor_pi_pow_dec 3023 = 8 ∧
  Optimized.get_dimension_range Pi.floor_pi_pow_dec 8 = (3021, 9488) ∧
  3021 `mod` 3 = 0 ∧
  Optimized.dart69_precheck Pi.floor_pi_pow_dec 3023 = (true, 2) ∧
  Checker.dart69_precheck Pi.floor_pi_pow_dec 3023 = (true, 56).
Proof. vm_compute. done. Qed.

(** * Further properties of the code *)

(** ** The sieve's output *)

Module SieveOutput.
Import PyRange Divisors Sieve.



Lemma StronglySorted_lt_unique (l1 l2 : list Z) :
  StronglySorted Z.lt l1 → StronglySorted Z.lt l2 →
  (∀ x, x ∈ l1 ↔ x ∈ l2) → l1 = l2.
Proof.
  intros H1 H2 Hel.
  assert (∀ l, StronglySorted Z.lt l → NoDup l) as Hnd.
  { induction 1 as [|x l Hl IH Hx]; constructor; [|done].
    intros Hin. rewrite Forall_forall in Hx. specialize (Hx x Hin). lia. }
  apply (StronglySorted_unique_strong Z.lt); [|done|done|].
  - intros x1 x2 _ _ ? ?. lia.
  - apply NoDup_Permutation; auto.
Qed.

End SieveOutput.






(** ** The filter and the scanning loop of [DART69Sieve] *)

Module SieveStats.
Import PyRange TrialDivision Dart69Sieve.

(** The state of the loop of [sieve_dimension]: the list [primes] and the
    counters [processed] and [candidates_tested]. *)
Record loop_state := {
  primes : list Z;
  processed : Z;
  candidates_tested : Z
}.

(** One round of [for n in range(start_num, end_num + 1)], the progress
    report left out. *)
Definition stats_step (filter_fn is_prime_fn : Z → bool)
    (st : loop_state) (n : Z) : loop_state :=
  let processed := processed st + 1 in
  if filter_fn n then
    let candidates_tested := candidates_tested st + 1 in
    if is_prime_fn n then
      {| primes := primes st ++ [n]; processed := processed;
         candidates_tested := candidates_tested |}
    else
      {| primes := primes st; processed := processed;
         candidates_tested := candidates_tested |}
  else
    {| primes := primes st; processed := processed;
       candidates_tested := candidates_tested st |}.

Definition stats_loop (filter_fn is_prime_fn : Z → bool)
    (start_num end_num : Z) : loop_state :=
  foldl (stats_step filter_fn is_prime_fn)
        {| primes := []; processed := 0; candidates_tested := 0 |}
        (range start_num (end_num + 1)).

Lemma stats_fold filter_fn is_prime_fn l st :
  let st' := foldl (stats_step filter_fn is_prime_fn) st l in
  primes st' = foldl (scan_step filter_fn is_prime_fn) (primes st) l ∧
  processed st' = processed st + Z.of_nat (length l) ∧
  candidates_tested st' =
    candidates_tested st + Z.of_nat (length (filter (λ n, filter_fn n = true) l)).
Proof.
  revert st. induction l as [|n l IH]; intros st.
  - cbn. split; [done|]. split; lia.
  - cbn [foldl length]. cbv zeta in IH.
    destruct (IH (stats_step filter_fn is_prime_fn st n)) as (Hp & Hpr & Hc).
    cbv zeta. rewrite Hp, Hpr, Hc, filter_cons. clear Hp Hpr Hc.
    unfold stats_step, scan_step.
    destruct (filter_fn n) eqn:Hf.
    + rewrite decide_True by done. cbn [length].
      destruct (is_prime_fn n); cbn; (split; [done|]); split; lia.
    + rewrite decide_False by done.
      cbn. split; [done|]. split; lia.
Qed.

Lemma length_range lo hi : lo ≤ hi → Z.of_nat (length (range lo hi)) = hi - lo.
Proof. intros. unfold range. rewrite length_seqZ. lia. Qed.

Lemma range_app lo mid hi :
  lo ≤ mid → mid ≤ hi → range lo hi = range lo mid ++ range mid hi.
Proof.
  intros Hl Hm. unfold range.
  replace (hi - lo) with ((mid - lo) + (hi - mid)) by lia.
  rewrite seqZ_app by lia. do 2 f_equal. lia.
Qed.

Lemma dart69_filter_true (n : Z) :
  dart69_filter n = true ↔
  n `mod` 10 ∈ [1; 3; 7; 9] ∧
  (n ∈ [3; 23] ∨ (n `mod` 3 ≠ 0 ∧ n `mod` 23 ≠ 0)).
Proof.
  unfold dart69_filter. cbv zeta.
  rewrite (Z.mod_mod_divide n 69 3) by (by exists 23).
  rewrite (Z.mod_mod_divide n 69 23) by (by exists 3).
  destruct (Z.eqb_spec (n `mod` 3) 0) as [H3|H3];
    destruct (Z.eqb_spec (n `mod` 23) 0) as [H23|H23]; simpl;
    case_bool_decide as Hex; simpl; rewrite ?bool_decide_eq_true;
    split; try tauto; try done; intros [_ [?|[? ?]]]; done.
Qed.

End SieveStats.

(** X4: [dart69_filter] accepts [n] exactly when its last digit is 1, 3, 7
    or 9 and [n] is 3, 23, or divisible neither by 3 nor by 23: the sector
    test on [n % 69] is a divisibility test on [n] itself. *)
Theorem dart69_filter_is_divisibility_test (n : Z) :
  dart69_filter n = true ↔
  n `mod` 10 ∈ [1; 3; 7; 9] ∧
  (n ∈ [3; 23] ∨ (n `mod` 3 ≠ 0 ∧ n `mod` 23 ≠ 0)).
Proof. apply SieveStats.dart69_filter_true. Qed.

(** X5: without gmpy2, a call of [sieve_dimension] whose range is empty
    with [end_num = start_num - 1] raises [ZeroDivisionError] when it stores
    its statistics.  When the bounds of the dimension satisfy
    [0 ≤ start_num ≤ end_num < 2^52] and the clock has advanced, the call
    returns, in strictly ascending order, exactly the primes within the
    bounds of the dimension other than 2 and 5. *)
Theorem sieve_dimension_misses_only_2_and_5
    (floor_pi_pow : Z → Z) (gmpy2_is_prime : Z → bool)
    (total_time : SpecFloat.spec_float) (dimension : Z) :
  ((get_dimension_range floor_pi_pow dimension).2 -
   (get_dimension_range floor_pi_pow dimension).1 + 1 = 0 →
   sieve_dimension floor_pi_pow gmpy2_is_prime total_time
                   {| use_gmpy2 := false |} dimension
     = Raises ZeroDivisionError) ∧
  (0 ≤ (get_dimension_range floor_pi_pow dimension).1 →
   (get_dimension_range floor_pi_pow dimension).1 ≤
   (get_dimension_range floor_pi_pow dimension).2 →
   (get_dimension_range floor_pi_pow dimension).2 < 2 ^ 52 →
   (∀ sign, total_time ≠ SpecFloat.S754_zero sign) →
   ∃ primes,
     sieve_dimension floor_pi_pow gmpy2_is_prime total_time
                     {| use_gmpy2 := false |} dimension = Returns primes ∧
     StronglySorted Z.lt primes ∧
     ∀ x, x ∈ primes ↔
          (get_dimension_range floor_pi_pow dimension).1 ≤ x ≤
          (get_dimension_range floor_pi_pow dimension).2 ∧
          Z.prime x ∧ x ≠ 2 ∧ x ≠ 5).
Proof.
  unfold sieve_dimension.
  destruct (get_dimension_range floor_pi_pow dimension) as [start_num end_num].
  cbn [fst snd]. split.
  - intros Hz. unfold sieve_loop. rewrite range_nil by lia. cbn.
    rewrite Hz. by rewrite store_stats_zero.
  - intros Hstart Hle Hend Ht.
    exists (scan_loop dart69_filter odd_trial_division start_num end_num).
    split.
    { rewrite (sieve_loop_returns _ _ odd_trial_division).
      2:{ intros n Hn _. cbn. apply is_prime_basic_small. lia. }
      cbn. rewrite (proj2 (store_stats_returns total_time _)); [done|].
      split; [apply float_of_int_small; lia|]. split; [done|lia]. }
    split; [apply sorted_scan_loop|]. intros x.
    rewrite elem_of_scan_loop, odd_trial_division_correct. split.
    + intros (Hr & Hf & Hp). split; [done|]. split; [done|].
      by apply dart69_filter_of_prime.
    + intros (Hr & Hp & Hn). split; [done|]. split; [|done].
      by apply dart69_filter_of_prime.
Qed.

(** Dimension -1 has the bounds (1, 0): the call raises.  Dimension 3 has
    the bounds (10, 31). *)
Lemma sieve_dimension_examples :
  get_dimension_range Pi.floor_pi_pow_dec (-1) = (1, 0) ∧
  sieve_dimension Pi.floor_pi_pow_dec (λ _, false) one_second
                  {| use_gmpy2 := false |} (-1) = Raises ZeroDivisionError ∧
  get_dimension_range Pi.floor_pi_pow_dec 3 = (10, 31) ∧
  sieve_dimension Pi.floor_pi_pow_dec (λ _, false) one_second
                  {| use_gmpy2 := false |} 3
    = Returns [11; 13; 17; 19; 23; 29; 31].
Proof.
  split; [by vm_compute|]. split; [by vm_compute|]. split; by vm_compute.
Qed.

(** X6: when the loop of [sieve_dimension] ends, [primes] is the list the
    scan returns, [processed] is [total_numbers = end_num - start_num + 1],
    [candidates_tested] counts the numbers that pass the filter, and
    [primes_found ≤ candidates_tested ≤ total_numbers]. *)
Theorem sieve_dimension_counters
    (filter_fn is_prime_fn : Z → bool) (start_num end_num : Z) :
  start_num ≤ end_num + 1 →
  SieveStats.primes (SieveStats.stats_loop filter_fn is_prime_fn start_num end_num)
    = scan_loop filter_fn is_prime_fn start_num end_num ∧
  SieveStats.processed (SieveStats.stats_loop filter_fn is_prime_fn start_num end_num)
    = end_num - start_num + 1 ∧
  SieveStats.candidates_tested
      (SieveStats.stats_loop filter_fn is_prime_fn start_num end_num)
    = Z.of_nat (length (filter (λ n, filter_fn n = true)
                               (range start_num (end_num + 1)))) ∧
  Z.of_nat (length (scan_loop filter_fn is_prime_fn start_num end_num))
    ≤ SieveStats.candidates_tested
        (SieveStats.stats_loop filter_fn is_prime_fn start_num end_num)
    ≤ end_num - start_num + 1.
Proof.
  intros Hr. unfold SieveStats.stats_loop.
  destruct (SieveStats.stats_fold filter_fn is_prime_fn
              (range start_num (end_num + 1))
              {| SieveStats.primes := []; SieveStats.processed := 0;
                 SieveStats.candidates_tested := 0 |}) as (Hp & Hpr & Hc).
  simpl in Hp, Hpr, Hc. rewrite Hp, Hpr, Hc.
  rewrite SieveStats.length_range by lia.
  split; [done|]. split; [lia|]. split; [lia|].
  rewrite scan_loop_filter.
  rewrite <- (list_filter_filter_l
                (λ n, filter_fn n = true ∧ is_prime_fn n = true)
                (λ n, filter_fn n = true)) by (by intros n [? _]).
  pose proof (length_filter (λ n, filter_fn n = true ∧ is_prime_fn n = true)
    (filter (λ n, filter_fn n = true) (range start_num (end_num + 1)))) as H1.
  pose proof (length_filter (λ n, filter_fn n = true)
    (range start_num (end_num + 1))) as H2.
  pose proof (SieveStats.length_range start_num (end_num + 1)) as H3. lia.
Qed.

Lemma sieve_dimension_counters_witness :
  10 ≤ 31 + 1 ∧
  SieveStats.primes (SieveStats.stats_loop dart69_filter wheel_trial_division 10 31)
    = scan_loop dart69_filter wheel_trial_division 10 31 ∧
  SieveStats.processed (SieveStats.stats_loop dart69_filter wheel_trial_division 10 31)
    = 31 - 10 + 1 ∧
  SieveStats.candidates_tested
      (SieveStats.stats_loop dart69_filter wheel_trial_division 10 31)
    = Z.of_nat (length (filter (λ n, dart69_filter n = true) (range 10 (31 + 1)))) ∧
  Z.of_nat (length (scan_loop dart69_filter wheel_trial_division 10 31))
    ≤ SieveStats.candidates_tested
        (SieveStats.stats_loop dart69_filter wheel_trial_division 10 31)
    ≤ 31 - 10 + 1.
Proof.
  split; [lia|]. apply (sieve_dimension_counters dart69_filter wheel_trial_division 10 31). lia.
Defined.

(** X7: scanning [[a, c]] gives the list of scanning [[a, b]] followed by
    the list of scanning [[b + 1, c]]: a range can be scanned in parts. *)
Theorem scan_of_adjacent_ranges
    (filter_fn is_prime_fn : Z → bool) (a b c : Z) :
  a ≤ b + 1 → b ≤ c →
  scan_loop filter_fn is_prime_fn a c =
  scan_loop filter_fn is_prime_fn a b ++ scan_loop filter_fn is_prime_fn (b + 1) c.
Proof.
  intros Hab Hbc. rewrite !scan_loop_filter.
  rewrite (SieveStats.range_app a (b + 1) (c + 1)) by lia.
  apply filter_app.
Qed.

Lemma scan_of_adjacent_ranges_witness :
  (4 ≤ 9 + 1 ∧ 9 ≤ 31) ∧
  scan_loop dart69_filter wheel_trial_division 4 31 =
  scan_loop dart69_filter wheel_trial_division 4 9 ++
  scan_loop dart69_filter wheel_trial_division (9 + 1) 31.
Proof.
  split; [lia|].
  apply (scan_of_adjacent_ranges dart69_filter wheel_trial_division 4 9 31); lia.
Defined.

(** ** Running the checker of dart69_prime_checker.py *)

Module CheckerRun.
Import Outcome Float64 TrialDivision Classifier Dimension Prechecks.

(** What the text returned by [check_prime_with_dart69] says. *)
Inductive check_reason :=
  | RuledOut                    (* Composite - reason of the precheck *)
  | PrimeAt (position : Z)      (* Prime at position ... *)
  | CompositeAt (position : Z). (* Composite at position ... *)

Section WithPi.
Variable floor_pi_pow : Z → Z.

(** [check_prime_with_dart69] without gmpy2; the printing and the timing
    are left out. *)
Definition check_prime_with_dart69 (n : Z) : outcome (bool * check_reason) :=
  let '(could_be_prime, position) := Checker.dart69_precheck floor_pi_pow n in
  if negb could_be_prime then Returns (false, RuledOut)
  else
    is_prime_result ← is_prime_fast n;
    Returns (if is_prime_result : bool then (true, PrimeAt position)
             else (false, CompositeAt position)).

(** One round of the loop of [batch_check]: the result appended for [n] and
    the counter [dart69_filtered]. *)
Definition batch_step (st : list (Z * bool) * Z) (n : Z)
    : outcome (list (Z * bool) * Z) :=
  let '(results, dart69_filtered) := st in
  let '(could_be_prime, _) := Checker.dart69_precheck floor_pi_pow n in
  if negb could_be_prime then
    Returns (results ++ [(n, false)], dart69_filtered + 1)
  else
    is_prime_result ← is_prime_fast n;
    Returns (results ++ [(n, is_prime_result)], dart69_filtered).

(** [batch_check]: the loop, then the summary, which divides by
    [len(numbers)], then [return results]. *)
Definition batch_check (numbers : list Z) : outcome (list (Z * bool)) :=
  st ← for_each batch_step ([], 0) numbers;
  if Z.of_nat (length numbers) =? 0 then Raises ZeroDivisionError
  else Returns st.1.

End WithPi.

Lemma prime_ge_5_mod n :
  Z.prime n → 5 ≤ n → n `mod` 2 ≠ 0 ∧ n `mod` 3 ≠ 0.
Proof.
  intros [_ Hp] Hn. split; intros Hm; apply Z.mod_divide in Hm; try done.
  - apply (Hp 2); [lia|done].
  - apply (Hp 3); [lia|done].
Qed.

Lemma precheck_accepts_primes fp n :
  Z.prime n → (Checker.dart69_precheck fp n).1 = true.
Proof.
  intros Hp. pose proof Hp as [Hn _].
  destruct (Z_lt_le_dec n 5) as [Hlt|Hge].
  - assert (n = 2 ∨ n = 3 ∨ n = 4) as [->|[->| ->]] by lia; [done|done|].
    exfalso. destruct Hp as [_ Hp]. apply (Hp 2); [lia|by exists 2].
  - apply checker_verdict; [done|].
    destruct (prime_ge_5_mod n Hp Hge) as [? ?]. split; [done|by left].
Qed.

Lemma precheck_false_not_prime fp n :
  (Checker.dart69_precheck fp n).1 = false → odd_trial_division n = false.
Proof.
  intros Hpre. destruct (odd_trial_division n) eqn:Hf; [|done].
  apply odd_trial_division_correct, (precheck_accepts_primes fp) in Hf. congruence.
Qed.

(** What the precheck lets through from 3 on is odd. *)
Lemma precheck_true_odd fp n :
  3 ≤ n → (Checker.dart69_precheck fp n).1 = true → n `mod` 2 ≠ 0.
Proof.
  intros Hn. unfold Checker.dart69_precheck.
  destruct (Z.ltb_spec n 2); [lia|]. destruct (Z.eqb_spec n 2); [lia|].
  destruct (Z.eqb_spec n 3) as [->|]; [done|].
  by destruct (Z.eqb_spec (n `mod` 2) 0).
Qed.

(** A round of [batch_check] on a number whose test is exact. *)
Lemma batch_step_returns fp results filtered n :
  (3 ≤ n → sqrt_exact n) →
  ∃ filtered',
    batch_step fp (results, filtered) n =
    Returns (results ++ [(n, odd_trial_division n)], filtered').
Proof.
  intros Hs. unfold batch_step.
  pose proof (precheck_false_not_prime fp n) as Hpre.
  destruct (Checker.dart69_precheck fp n) as [[|] pos]; cbn [negb fst] in *.
  - rewrite is_prime_fast_returns by done. by eexists.
  - rewrite Hpre by done. by eexists.
Qed.

Lemma batch_loop_returns fp numbers results filtered :
  (∀ n, n ∈ numbers → 3 ≤ n → sqrt_exact n) →
  ∃ filtered',
    for_each (batch_step fp) (results, filtered) numbers =
    Returns (results ++ ((λ n, (n, odd_trial_division n)) <$> numbers), filtered').
Proof.
  revert results filtered.
  induction numbers as [|n numbers IH]; intros results filtered Hs.
  - exists filtered. cbn. by rewrite app_nil_r.
  - cbn [for_each].
    destruct (batch_step_returns fp results filtered n) as [f' ->];
      [apply Hs; left|].
    cbn. destruct (IH (results ++ [(n, odd_trial_division n)]) f') as [f'' ->].
    { intros m Hm. apply Hs. by right. }
    exists f''. by rewrite <- app_assoc.
Qed.

(** Whatever the tests return, the numbers of the results are the numbers
    given, in order. *)
Lemma batch_loop_numbers fp numbers st :
  for_each (batch_step fp) ([], 0) numbers = Returns st → st.1.*1 = numbers.
Proof.
  apply (for_each_inv (λ st seen, st.1.*1 = seen)); [done|].
  intros [results filtered] n st' seen Hinv. cbn [fst] in Hinv.
  unfold batch_step.
  destruct (Checker.dart69_precheck fp n) as [[|] pos]; cbn [negb].
  - destruct (is_prime_fast n) as [b|e]; cbn; [|done].
    intros [= <-]. cbn [fst]. by rewrite fmap_app, Hinv.
  - intros [= <-]. cbn [fst]. by rewrite fmap_app, Hinv.
Qed.

Lemma dimension_loop_least fp fuel n d0 :
  1 ≤ d0 ≤ 100 → (Z.to_nat (101 - d0) ≤ fuel)%nat →
  d0 ≤ dimension_loop fp fuel n d0 ≤ 101 ∧
  (dimension_loop fp fuel n d0 ≤ 100 → n ≤ fp (dimension_loop fp fuel n d0)) ∧
  (∀ d, d0 ≤ d < dimension_loop fp fuel n d0 → fp d < n).
Proof.
  revert d0. induction fuel as [|fuel IH]; intros d0 Hd Hf; [lia|].
  simpl. destruct (Z.leb_spec n (fp d0)) as [Hle|Hgt].
  - split; [lia|]. split; [done|]. intros d ?. lia.
  - destruct (Z.gtb_spec (d0 + 1) 100) as [Hbig|Hsmall].
    + split; [lia|]. split; [lia|]. intros d ?.
      by replace d with d0 by lia.
    + destruct (IH (d0 + 1)) as (Hr & Hle & Hall); [lia|lia|].
      split; [lia|]. split; [done|]. intros d ?.
      destruct (decide (d = d0)) as [->|]; [done|]. apply Hall. lia.
Qed.

End CheckerRun.

(** X8: without gmpy2, the precheck of dart69_prime_checker.py never rules
    out a prime, and [check_prime_with_dart69] answers composite for what it
    rules out.  On every [n < 2^52] the check returns and reports prime
    exactly when [n] is prime.  It can raise only from 2^52 on, and then
    the error of [is_prime_fast] on a number that the precheck lets
    through: [OverflowError] when that number is too large for a float. *)
Theorem check_prime_with_dart69_is_exact (floor_pi_pow : Z → Z) (n : Z) :
  ((Checker.dart69_precheck floor_pi_pow n).1 = false →
   ¬ Z.prime n ∧
   CheckerRun.check_prime_with_dart69 floor_pi_pow n
     = Returns (false, CheckerRun.RuledOut)) ∧
  (n < 2 ^ 52 →
   ∃ b reason,
     CheckerRun.check_prime_with_dart69 floor_pi_pow n = Returns (b, reason) ∧
     (b = true ↔ Z.prime n)) ∧
  (∀ e, CheckerRun.check_prime_with_dart69 floor_pi_pow n = Raises e →
        2 ^ 52 ≤ n ∧
        (Checker.dart69_precheck floor_pi_pow n).1 = true ∧
        is_prime_fast n = Raises e) ∧
  (3 ≤ n → (Checker.dart69_precheck floor_pi_pow n).1 = true →
   float_of_int n = Raises OverflowError →
   CheckerRun.check_prime_with_dart69 floor_pi_pow n = Raises OverflowError).
Proof.
  pose proof (CheckerRun.precheck_accepts_primes floor_pi_pow n) as Hacc.
  pose proof (CheckerRun.precheck_true_odd floor_pi_pow n) as Hodd.
  unfold CheckerRun.check_prime_with_dart69.
  destruct (Checker.dart69_precheck floor_pi_pow n) as [[|] pos];
    cbn [negb fst] in *.
  - split; [done|]. split; [|split].
    + intros Hs. rewrite is_prime_fast_small by done. cbn.
      pose proof (odd_trial_division_correct n) as Hc.
      destruct (odd_trial_division n); do 2 eexists; (split; [done|]).
      * done.
      * split; [done|]. intros Hp. by apply Hc in Hp.
    + intros e. destruct (is_prime_fast n) as [b|e'] eqn:Hfast; cbn;
        [by destruct b|].
      intros [= ->]. split; [|done].
      destruct (Z_lt_le_dec n (2 ^ 52)) as [Hlt|]; [|done].
      by rewrite is_prime_fast_small in Hfast.
    + intros Hn _ Hf. rewrite is_prime_fast_overflow; [done|done| |done].
      by apply Hodd.
  - split; [|split; [|split]]; [|by do 2 eexists; split;
      [done|split; [done|intros Hp; by apply Hacc in Hp]]|done|done].
    intros _. split; [|done]. intros Hp. by apply Hacc in Hp.
Qed.

(** X9: [is_forbidden_position] forbids a position exactly when it is a
    multiple of 3, except position 3 when early exceptions are allowed;
    position 23, although listed as an exception, is never forbidden
    whatever the flag. *)
Theorem forbidden_positions_are_multiples_of_3 (pos : Z) (allow : bool) :
  (is_forbidden_position pos allow = true ↔
   pos `mod` 3 = 0 ∧ ¬ (allow = true ∧ pos = 3)) ∧
  is_forbidden_position 23 allow = false.
Proof.
  split; [|by destruct allow].
  pose proof (Prechecks.is_forbidden_position_false pos allow) as Hf.
  destruct (is_forbidden_position pos allow).
  - split; [intros _|done]. split.
    + destruct (decide (pos `mod` 3 = 0)) as [|Hne]; [done|].
      assert (true = false); [|done]. apply Hf. by left.
    + intros Hex. assert (true = false); [|done]. apply Hf. by right.
  - split; [done|]. intros [H3 Hex].
    destruct Hf as [Hf _]. destruct (Hf eq_refl) as [?|?]; done.
Qed.

(** X10: [get_dimension_for_number] returns 0 for [n ≤ 1]; otherwise it
    returns the least [d] in [1..100] with [n ≤ floor(π^d)], and 101 when
    there is none. *)
Theorem get_dimension_for_number_is_least (floor_pi_pow : Z → Z) (n : Z) :
  (n ≤ 1 → get_dimension_for_number floor_pi_pow n = 0) ∧
  (1 < n →
   1 ≤ get_dimension_for_number floor_pi_pow n ≤ 101 ∧
   (get_dimension_for_number floor_pi_pow n ≤ 100 →
    n ≤ floor_pi_pow (get_dimension_for_number floor_pi_pow n)) ∧
   (∀ d, 1 ≤ d < get_dimension_for_number floor_pi_pow n →
         floor_pi_pow d < n)).
Proof.
  unfold get_dimension_for_number. split.
  - intros Hn. by destruct (Z.leb_spec n 1); [|lia].
  - intros Hn. destruct (Z.leb_spec n 1); [lia|].
    apply CheckerRun.dimension_loop_least; [lia|]. by vm_compute.
Qed.

(** X11: [batch_check] on an empty list divides by zero in its summary.  On
    a non-empty list of numbers below 2^52 it returns one entry per number,
    in order, whose verdict is true exactly for the primes.  Whenever it
    returns, the entries are those of the numbers given, in order. *)
Theorem batch_check_results (floor_pi_pow : Z → Z) (numbers : list Z) :
  CheckerRun.batch_check floor_pi_pow [] = Raises ZeroDivisionError ∧
  (numbers ≠ [] → (∀ n, n ∈ numbers → n < 2 ^ 52) →
   ∃ results,
     CheckerRun.batch_check floor_pi_pow numbers = Returns results ∧
     results = (λ n, (n, odd_trial_division n)) <$> numbers ∧
     ∀ n b, (n, b) ∈ results → (b = true ↔ Z.prime n)) ∧
  (∀ results, CheckerRun.batch_check floor_pi_pow numbers = Returns results →
     results.*1 = numbers).
Proof.
  split; [reflexivity|]. split.
  - intros Hne Hsmall.
    assert (∀ n, n ∈ numbers → 3 ≤ n → sqrt_exact n) as Hs
      by (intros n Hn ?; apply sqrt_exact_small; specialize (Hsmall n Hn); lia).
    eexists. split; [|split; [reflexivity|]].
    + unfold CheckerRun.batch_check.
      destruct (CheckerRun.batch_loop_returns floor_pi_pow numbers [] 0 Hs)
        as [f ->].
      cbn. by destruct numbers.
    + intros n b (m & [= -> ->] & _)%list_elem_of_fmap.
      apply odd_trial_division_correct.
  - intros results. unfold CheckerRun.batch_check.
    destruct (for_each _ _ numbers) as [st|e] eqn:Hloop; cbn; [|done].
    destruct (Z.of_nat (length numbers) =? 0); [done|]. intros [= <-].
    by apply (CheckerRun.batch_loop_numbers floor_pi_pow).
Qed.

(** ** Running the optimized checker *)

Module OptimizedRun.
Import PyRange Outcome Float64 TrialDivision Classifier Dimension Dart69Sieve.
Import Prechecks.

(** [DART69_ALLOWED = set(range(69)) - DART69_FORBIDDEN] *)
Definition DART69_ALLOWED : gset Z :=
  list_to_set (range 0 69) ∖ DART69_FORBIDDEN.

Section WithPi.
Variable floor_pi_pow : Z → Z.

(** [optimized_prime_check] without gmpy2: the verdict and the stage that
    gave it (the details dictionary and the timing are left out). *)
Definition optimized_prime_check (n : Z) : outcome (bool * Z) :=
  if n <? 2 then Returns (false, 1)
  else if bool_decide (n ∈ [2; 3; 5; 7]) then Returns (true, 1)
  else
    let last_digit_ok := Optimized.last_digit_precheck n in
    if negb last_digit_ok then Returns (false, 2)
    else
      let '(dart69_ok, position) := Optimized.dart69_precheck floor_pi_pow n in
      if negb dart69_ok then Returns (false, 3)
      else
        is_prime_result ← is_prime_fast n;
        Returns (is_prime_result, 4).

(** The state of the loop of [batch_analysis]: [results] and the
    dictionary [stage_counts]. *)
Definition batch_state : Type := list (Z * bool * Z) * gmap Z Z.

(** [stage_counts = {1: 0, 2: 0, 3: 0, 4: 0}] *)
Definition stage_counts_init : gmap Z Z :=
  <[1 := 0]> (<[2 := 0]> (<[3 := 0]> (<[4 := 0]> ∅))).

(** One round: [stage_counts[stage] += 1] and [results.append(...)].  The
    stage is always a key of the dictionary. *)
Definition batch_step (st : batch_state) (n : Z) : outcome batch_state :=
  let '(results, stage_counts) := st in
  check ← optimized_prime_check n;
  let '(is_prime_result, stage) := check in
  Returns (results ++ [(n, is_prime_result, stage)],
           alter (λ c, c + 1) stage stage_counts).

Definition batch_loop (numbers : list Z) : outcome batch_state :=
  for_each batch_step ([], stage_counts_init) numbers.

(** [batch_analysis]: with [show_stats] the statistics divide by
    [total_nums = len(numbers)]. *)
Definition batch_analysis (numbers : list Z) (show_stats : bool)
    : outcome (list (Z * bool * Z)) :=
  st ← batch_loop numbers;
  let '(results, stage_counts) := st in
  if show_stats then
    let total_nums := Z.of_nat (length numbers) in
    if total_nums =? 0 then Raises ZeroDivisionError
    else Returns results
  else Returns results.

(** The stage at which the check of [n] ends: the prechecks decide it. *)
Definition stage_of (n : Z) : Z :=
  if n <? 2 then 1
  else if bool_decide (n ∈ [2; 3; 5; 7]) then 1
  else if negb (Optimized.last_digit_precheck n) then 2
  else if negb (Optimized.dart69_precheck floor_pi_pow n).1 then 3
  else 4.

(** The check with trial division up to [⌊√n⌋] at stage 4. *)
Definition staged_check (n : Z) : bool * Z :=
  (if stage_of n =? 3 then false else odd_trial_division n, stage_of n).

End WithPi.

Lemma last_digit_precheck_true n :
  Optimized.last_digit_precheck n = true ↔
  n ∈ [2; 5] ∨ n `mod` 10 ∈ [1; 3; 7; 9].
Proof.
  unfold Optimized.last_digit_precheck. cbv zeta.
  pose proof (Z.mod_pos_bound n 10 eq_refl) as Hb.
  destruct (Z.eqb_spec n 2) as [->|H2]; [by split; [left; left|]|].
  destruct (Z.eqb_spec n 5) as [->|H5]; [by split; [left; right; left|]|].
  case_bool_decide as Hin; rewrite !elem_of_cons, !elem_of_nil in *.
  - split; [done|]. intros [?|?]; lia.
  - split; [|done]. intros _. right. lia.
Qed.

Lemma last_digit_precheck_of_prime n :
  Z.prime n → Optimized.last_digit_precheck n = true.
Proof.
  intros Hp. apply last_digit_precheck_true.
  destruct (decide (n = 2)) as [->|H2]; [left; left|].
  destruct (decide (n = 5)) as [->|H5]; [left; right; left|].
  right. by apply last_digit_of_prime.
Qed.

Lemma stage_of_range fp n : stage_of fp n ∈ [1; 2; 3; 4].
Proof.
  unfold stage_of.
  destruct (n <? 2); [by left|].
  destruct (bool_decide _); [by left|].
  destruct (negb _); [by right; left|].
  destruct (negb _); [by do 2 right; left|by do 3 right; left].
Qed.

(** A check that returns, returns at the stage that the prechecks decide;
    below stage 4 its verdict is that of the prechecks. *)
Lemma optimized_prime_check_stage fp n b s :
  optimized_prime_check fp n = Returns (b, s) →
  s = stage_of fp n ∧
  (s = 1 → b = bool_decide (n ∈ [2; 3; 5; 7])) ∧
  (s = 2 ∨ s = 3 → b = false) ∧
  (s = 4 → is_prime_fast n = Returns b).
Proof.
  unfold optimized_prime_check, stage_of.
  destruct (n <? 2) eqn:Hlt.
  { intros [= <- <-]. split; [done|]. split; [|done].
    intros _. rewrite bool_decide_eq_false_2; [done|].
    rewrite !elem_of_cons, elem_of_nil. apply Z.ltb_lt in Hlt. lia. }
  case_bool_decide as Hsmall.
  { intros [= <- <-]. split; [done|]. split; [done|]. split; [|done].
    intros [?|?]; done. }
  cbv zeta. destruct (negb (Optimized.last_digit_precheck n)).
  { intros [= <- <-]. split; [done|]. split; [done|]. done. }
  destruct (Optimized.dart69_precheck fp n) as [[|] pos]; cbn [negb fst].
  - destruct (is_prime_fast n) as [b'|e]; cbn; [|done].
    intros [= <- <-]. split; [done|]. split; [done|]. split; [|done].
    intros [?|?]; done.
  - intros [= <- <-]. split; [done|]. split; [done|]. done.
Qed.

(** Where the test of stage 4 is exact the check returns, with the verdict
    of trial division unless the forbidden zones rule the number out. *)
Lemma optimized_prime_check_returns fp n :
  (3 ≤ n → sqrt_exact n) →
  optimized_prime_check fp n = Returns (staged_check fp n).
Proof.
  intros Hs. unfold optimized_prime_check, staged_check, stage_of.
  destruct (Z.ltb_spec n 2) as [Hlt|Hge].
  { cbn. do 2 f_equal. symmetry. apply odd_trial_division_false.
    by apply not_prime_lt_2. }
  case_bool_decide as Hsmall.
  { cbn. do 2 f_equal. symmetry.
    rewrite !elem_of_cons, elem_of_nil in Hsmall.
    destruct Hsmall as [->|[->|[->|[->|[]]]]]; by vm_compute. }
  cbv zeta. destruct (Optimized.last_digit_precheck n) eqn:Hld; cbn [negb].
  2:{ cbn. do 2 f_equal. symmetry. apply odd_trial_division_false.
      intros Hp. apply last_digit_precheck_of_prime in Hp. congruence. }
  destruct (Optimized.dart69_precheck fp n) as [[|] pos]; cbn [negb fst].
  - rewrite is_prime_fast_returns by done. done.
  - done.
Qed.

(** A verdict given at stage 1 or 2 is exact. *)
Lemma early_stage_exact fp n b s :
  optimized_prime_check fp n = Returns (b, s) → s = 1 ∨ s = 2 →
  b = true ↔ Z.prime n.
Proof.
  unfold optimized_prime_check.
  destruct (Z.ltb_spec n 2) as [Hlt|Hge].
  { intros [= <- <-] _. split; [done|]. intros Hp. by apply not_prime_lt_2 in Hp. }
  case_bool_decide as Hsmall.
  { intros [= <- <-] _. split; [intros _|done].
    rewrite !elem_of_cons, elem_of_nil in Hsmall.
    destruct Hsmall as [->|[->|[->|[->|[]]]]]; by apply odd_trial_division_correct. }
  cbv zeta. destruct (Optimized.last_digit_precheck n) eqn:Hld; cbn [negb].
  2:{ intros [= <- <-] _. split; [done|]. intros Hp.
      apply last_digit_precheck_of_prime in Hp. congruence. }
  destruct (Optimized.dart69_precheck fp n) as [[|] pos]; cbn [negb fst].
  - destruct (is_prime_fast n) as [b'|e]; cbn; [|done].
    intros [= <- <-] [?|?]; done.
  - intros [= <- <-] [?|?]; done.
Qed.

Lemma optimized_prime_check_raises fp n e :
  optimized_prime_check fp n = Raises e →
  stage_of fp n = 4 ∧ is_prime_fast n = Raises e.
Proof.
  unfold optimized_prime_check, stage_of.
  destruct (n <? 2); [done|]. destruct (bool_decide _); [done|].
  cbv zeta. destruct (negb (Optimized.last_digit_precheck n)); [done|].
  destruct (Optimized.dart69_precheck fp n) as [[|] pos]; cbn [negb fst]; [|done].
  destruct (is_prime_fast n) as [b'|e']; cbn; [done|]. by intros [= ->].
Qed.

Lemma analysis_step_returns fp st n :
  (3 ≤ n → sqrt_exact n) →
  batch_step fp st n =
  Returns (st.1 ++ [(n, (staged_check fp n).1, (staged_check fp n).2)],
           alter (λ c, c + 1) (stage_of fp n) st.2).
Proof.
  intros Hs. destruct st as [results counts]. unfold batch_step.
  rewrite optimized_prime_check_returns by done. done.
Qed.

(** The counters of the stages, whatever the tests return. *)
Lemma batch_loop_counts fp numbers st s :
  batch_loop fp numbers = Returns st →
  st.1.*1.*1 = numbers ∧
  st.2 !! s =
    (λ c, c + Z.of_nat (length (filter (λ n, stage_of fp n = s) numbers)))
      <$> stage_counts_init !! s.
Proof.
  unfold batch_loop.
  apply (for_each_inv (λ st seen,
    st.1.*1.*1 = seen ∧
    st.2 !! s =
      (λ c, c + Z.of_nat (length (filter (λ n, stage_of fp n = s) seen)))
        <$> stage_counts_init !! s)).
  { split; [done|]. cbn. destruct (stage_counts_init !! s); cbn; [|done].
    f_equal. lia. }
  intros [results counts] n st' seen [Hres Hcount]. cbn [fst snd] in *.
  unfold batch_step.
  destruct (optimized_prime_check fp n) as [[b stage]|e] eqn:Hcheck; cbn; [|done].
  intros [= <-]. cbn [fst snd].
  apply optimized_prime_check_stage in Hcheck as [-> _].
  split; [by rewrite !fmap_app, Hres|].
  rewrite filter_app, length_app, filter_cons, filter_nil.
  destruct (decide (stage_of fp n = s)) as [->|Hne].
  - rewrite lookup_alter_eq, Hcount.
    destruct (stage_counts_init !! _); cbn; [|done]. f_equal. lia.
  - rewrite lookup_alter_ne, Hcount by done.
    destruct (stage_counts_init !! _); cbn; [|done]. f_equal. lia.
Qed.

Lemma analysis_loop_returns fp numbers st :
  (∀ n, n ∈ numbers → 3 ≤ n → sqrt_exact n) →
  ∃ counts,
    for_each (batch_step fp) st numbers =
    Returns (st.1 ++ ((λ n, (n, (staged_check fp n).1, (staged_check fp n).2))
                        <$> numbers), counts).
Proof.
  revert st. induction numbers as [|n numbers IH]; intros [results counts] Hs.
  - exists counts. cbn. by rewrite app_nil_r.
  - cbn [for_each]. rewrite analysis_step_returns by (apply Hs; left).
    cbn [mbind outcome_bind fst snd].
    edestruct IH as [counts' ->]; [intros m Hm; apply Hs; by right|].
    exists counts'. cbn [fst fmap list_fmap]. by rewrite <- app_assoc.
Qed.

End OptimizedRun.

(** X12: [last_digit_precheck] passes [n] exactly when [n] is 2 or 5 or
    ends in 1, 3, 7 or 9; it never rules out a prime. *)
Theorem last_digit_precheck_keeps_primes (n : Z) :
  (Optimized.last_digit_precheck n = true ↔
   n ∈ [2; 5] ∨ n `mod` 10 ∈ [1; 3; 7; 9]) ∧
  (Optimized.last_digit_precheck n = false → ¬ Z.prime n).
Proof.
  split; [apply OptimizedRun.last_digit_precheck_true|].
  intros Hf Hp. apply OptimizedRun.last_digit_precheck_of_prime in Hp. congruence.
Qed.

(** X13: when [optimized_prime_check] returns, it has stopped at a stage
    from 1 to 4, which the prechecks decide ([stage_of]); a verdict given
    at stage 1 or 2 is exact, stage 3 (the forbidden zones) always says
    composite, and the verdict of stage 4 is the one [is_prime_fast]
    returned.  On every [n < 2^52] the check returns, reports prime only
    for primes, and is exact unless it stops at stage 3.  It can raise only
    from 2^52 on, and then the error of [is_prime_fast] at stage 4. *)
Theorem optimized_prime_check_is_sound (floor_pi_pow : Z → Z) (n : Z) :
  (∀ b s, OptimizedRun.optimized_prime_check floor_pi_pow n = Returns (b, s) →
     s = OptimizedRun.stage_of floor_pi_pow n ∧
     s ∈ [1; 2; 3; 4] ∧
     (s = 1 ∨ s = 2 → b = true ↔ Z.prime n) ∧
     (s = 3 → b = false) ∧
     (s = 4 → is_prime_fast n = Returns b)) ∧
  (n < 2 ^ 52 →
   ∃ b s, OptimizedRun.optimized_prime_check floor_pi_pow n = Returns (b, s) ∧
          s ∈ [1; 2; 3; 4] ∧
          (b = true → Z.prime n) ∧
          (s ≠ 3 → b = true ↔ Z.prime n) ∧
          (s = 3 → b = false)) ∧
  (∀ e, OptimizedRun.optimized_prime_check floor_pi_pow n = Raises e →
        2 ^ 52 ≤ n ∧
        OptimizedRun.stage_of floor_pi_pow n = 4 ∧ is_prime_fast n = Raises e).
Proof.
  split; [|split].
  - intros b s Hcheck.
    pose proof (OptimizedRun.early_stage_exact _ _ _ _ Hcheck) as Hearly.
    apply OptimizedRun.optimized_prime_check_stage in Hcheck
      as (-> & _ & H23 & H4).
    split; [done|].
    split; [apply OptimizedRun.stage_of_range|]. split; [done|].
    split; [|done]. intros ?. apply H23. by right.
  - intros Hsmall. eexists _, _.
    split; [apply OptimizedRun.optimized_prime_check_returns;
            intros ?; apply sqrt_exact_small; lia|].
    split; [apply OptimizedRun.stage_of_range|].
    destruct (Z.eqb_spec (OptimizedRun.stage_of floor_pi_pow n) 3) as [H3|H3].
    + split; [done|]. split; [done|]. done.
    + rewrite odd_trial_division_correct. split; [done|]. split; [done|]. done.
  - intros e He.
    apply OptimizedRun.optimized_prime_check_raises in He as [Hstage Hfast].
    split; [|done]. destruct (Z_lt_le_dec n (2 ^ 52)) as [Hlt|]; [|done].
    by rewrite is_prime_fast_small in Hfast.
Qed.

(** X14: a prime above 7 whose position relative to the start of its
    dimension is a multiple of 3 or of 23 is reported composite by
    [optimized_prime_check], at stage 3 (13 is one). *)
Theorem optimized_prime_check_misses_primes (floor_pi_pow : Z → Z) (p : Z) :
  Z.prime p → 7 < p →
  Optimized.get_dart69_position floor_pi_pow p `mod` 3 = 0 ∨
  Optimized.get_dart69_position floor_pi_pow p `mod` 23 = 0 →
  OptimizedRun.optimized_prime_check floor_pi_pow p = Returns (false, 3).
Proof.
  intros Hp H7 Hpos. unfold OptimizedRun.optimized_prime_check.
  destruct (Z.ltb_spec p 2); [lia|].
  rewrite bool_decide_eq_false_2.
  2:{ rewrite !elem_of_cons, elem_of_nil. lia. }
  cbv zeta. rewrite (OptimizedRun.last_digit_precheck_of_prime p Hp). cbn [negb].
  pose proof (Prechecks.optimized_verdict floor_pi_pow p) as Hv.
  destruct (Optimized.dart69_precheck floor_pi_pow p) as [[|] pos];
    cbn [negb fst snd] in *; [|done].
  destruct Hv as [Hv _]. destruct (Hv eq_refl) as [? ?]. by destruct Hpos.
Qed.

Lemma optimized_prime_check_misses_primes_witness :
  (Z.prime 13 ∧ 7 < 13 ∧
   (Optimized.get_dart69_position Pi.floor_pi_pow_dec 13 `mod` 3 = 0 ∨
    Optimized.get_dart69_position Pi.floor_pi_pow_dec 13 `mod` 23 = 0)) ∧
  OptimizedRun.optimized_prime_check Pi.floor_pi_pow_dec 13 = Returns (false, 3).
Proof.
  assert (Z.prime 13) as Hp by (by apply odd_trial_division_correct).
  assert (Optimized.get_dart69_position Pi.floor_pi_pow_dec 13 `mod` 3 = 0 ∨
          Optimized.get_dart69_position Pi.floor_pi_pow_dec 13 `mod` 23 = 0) as Hpos
    by (left; by vm_compute).
  split; [split; [done|split; [lia|done]]|].
  apply (optimized_prime_check_misses_primes Pi.floor_pi_pow_dec 13 Hp); [lia|done].
Defined.

Module BatchCounts.
Import PyRange Classifier OptimizedRun.

(** How many of [numbers] have prechecks that end at stage [s]. *)
Definition stopped_at (fp : Z → Z) (numbers : list Z) (s : Z) : Z :=
  Z.of_nat (length (filter (λ n, stage_of fp n = s) numbers)).

Lemma stopped_at_total fp numbers :
  stopped_at fp numbers 1 + stopped_at fp numbers 2 +
  stopped_at fp numbers 3 + stopped_at fp numbers 4 =
  Z.of_nat (length numbers).
Proof.
  unfold stopped_at. induction numbers as [|n numbers IH]; [done|].
  rewrite !filter_cons. cbn [length].
  pose proof (stage_of_range fp n) as Hs.
  rewrite !elem_of_cons, elem_of_nil in Hs.
  destruct Hs as [Hs|[Hs|[Hs|[Hs|[]]]]]; rewrite Hs; simpl; lia.
Qed.

Lemma stage_counts_init_lookup s :
  s ∈ [1; 2; 3; 4] → stage_counts_init !! s = Some 0.
Proof.
  rewrite !elem_of_cons, elem_of_nil.
  intros [->|[->|[->|[->|[]]]]]; by vm_compute.
Qed.

Lemma elem_of_DART69_ALLOWED r :
  r ∈ DART69_ALLOWED ↔ 0 ≤ r < 69 ∧ r `mod` 3 ≠ 0 ∧ r `mod` 23 ≠ 0.
Proof.
  unfold DART69_ALLOWED.
  rewrite elem_of_difference, elem_of_list_to_set, elem_of_range,
    elem_of_DART69_FORBIDDEN.
  split.
  - intros [Hr Hn]. split; [lia|]. split; intros ?; apply Hn; split; auto; lia.
  - intros [Hr [H3 H23]]. split; [lia|]. intros [_ [?|?]]; done.
Qed.

End BatchCounts.

(** X15: a number above 1 whose dimension [d] lies in [2..100] is within
    the bounds [get_dimension_range(d)] of that dimension, so its relative
    position [n - start] is not negative. *)
Theorem number_lies_in_its_dimension (floor_pi_pow : Z → Z) (n : Z) :
  1 < n →
  2 ≤ get_dimension_for_number floor_pi_pow n ≤ 100 →
  (Optimized.get_dimension_range floor_pi_pow
     (get_dimension_for_number floor_pi_pow n)).1 ≤ n ≤
  (Optimized.get_dimension_range floor_pi_pow
     (get_dimension_for_number floor_pi_pow n)).2.
Proof.
  intros Hn Hd. unfold get_dimension_for_number in *.
  destruct (Z.leb_spec n 1); [lia|].
  destruct (CheckerRun.dimension_loop_least floor_pi_pow 100 n 1)
    as (Hr & Hle & Hall); [lia|by vm_compute|].
  set (d := dimension_loop floor_pi_pow 100 n 1) in *.
  unfold Optimized.get_dimension_range. cbn [fst snd].
  split; [|apply Hle; lia].
  specialize (Hall (d - 1)). lia.
Qed.

Lemma number_lies_in_its_dimension_witness :
  (1 < 3023 ∧ 2 ≤ get_dimension_for_number Pi.floor_pi_pow_dec 3023 ≤ 100) ∧
  (Optimized.get_dimension_range Pi.floor_pi_pow_dec
     (get_dimension_for_number Pi.floor_pi_pow_dec 3023)).1 ≤ 3023 ≤
  (Optimized.get_dimension_range Pi.floor_pi_pow_dec
     (get_dimension_for_number Pi.floor_pi_pow_dec 3023)).2.
Proof.
  assert (2 ≤ get_dimension_for_number Pi.floor_pi_pow_dec 3023 ≤ 100) as Hd
    by (by vm_compute).
  split; [split; [lia|exact Hd]|].
  apply (number_lies_in_its_dimension Pi.floor_pi_pow_dec 3023); [lia|exact Hd].
Defined.

(** X16: the module-level loop makes [DART69_FORBIDDEN] the 25 residues
    below 69 that are multiples of 3 or of 23, and [DART69_ALLOWED] the
    other 44. *)
Theorem dart69_forbidden_and_allowed_positions (r : Z) :
  (r ∈ DART69_FORBIDDEN ↔ 0 ≤ r < 69 ∧ (r `mod` 3 = 0 ∨ r `mod` 23 = 0)) ∧
  (r ∈ OptimizedRun.DART69_ALLOWED ↔
   0 ≤ r < 69 ∧ r `mod` 3 ≠ 0 ∧ r `mod` 23 ≠ 0) ∧
  size DART69_FORBIDDEN = 25%nat ∧
  size OptimizedRun.DART69_ALLOWED = 44%nat.
Proof.
  split; [apply elem_of_DART69_FORBIDDEN|].
  split; [apply BatchCounts.elem_of_DART69_ALLOWED|].
  split; by vm_compute.
Qed.

(** X17: in [batch_analysis] every number is counted at exactly one stage:
    when the loop returns, the results are those of the numbers given, in
    order, each of the four entries of [stage_counts] is the number of
    inputs whose prechecks end at that stage, and the four add up to
    [len(numbers)].  With [show_stats] the empty list makes the statistics
    divide by zero; otherwise, on numbers below 2^52, the results are
    returned, one per number, in order. *)
Theorem batch_analysis_counts_every_number
    (floor_pi_pow : Z → Z) (numbers : list Z) (show_stats : bool) :
  (∀ n b s, OptimizedRun.optimized_prime_check floor_pi_pow n = Returns (b, s) →
     s = OptimizedRun.stage_of floor_pi_pow n) ∧
  (∀ st, OptimizedRun.batch_loop floor_pi_pow numbers = Returns st →
     st.1.*1.*1 = numbers ∧
     ∀ s, s ∈ [1; 2; 3; 4] →
          st.2 !! s = Some (BatchCounts.stopped_at floor_pi_pow numbers s)) ∧
  BatchCounts.stopped_at floor_pi_pow numbers 1 +
  BatchCounts.stopped_at floor_pi_pow numbers 2 +
  BatchCounts.stopped_at floor_pi_pow numbers 3 +
  BatchCounts.stopped_at floor_pi_pow numbers 4 = Z.of_nat (length numbers) ∧
  OptimizedRun.batch_analysis floor_pi_pow [] true = Raises ZeroDivisionError ∧
  ((∀ n, n ∈ numbers → n < 2 ^ 52) →
   numbers ≠ [] ∨ show_stats = false →
   ∃ results,
     OptimizedRun.batch_analysis floor_pi_pow numbers show_stats
       = Returns results ∧
     Forall2 (λ n r, r.1.1 = n ∧
                     OptimizedRun.optimized_prime_check floor_pi_pow n
                       = Returns (r.1.2, r.2))
             numbers results).
Proof.
  split.
  { intros n b s Hcheck.
    by apply OptimizedRun.optimized_prime_check_stage in Hcheck as [-> _]. }
  split.
  { intros st Hloop. split.
    - by destruct (OptimizedRun.batch_loop_counts floor_pi_pow numbers st 1 Hloop).
    - intros s Hs.
      destruct (OptimizedRun.batch_loop_counts floor_pi_pow numbers st s Hloop)
        as [_ ->].
      by rewrite BatchCounts.stage_counts_init_lookup. }
  split; [apply BatchCounts.stopped_at_total|].
  split; [reflexivity|].
  intros Hsmall Hcase.
  assert (∀ n, n ∈ numbers → 3 ≤ n → sqrt_exact n) as Hs
    by (intros n Hn ?; apply sqrt_exact_small; specialize (Hsmall n Hn); lia).
  unfold OptimizedRun.batch_analysis, OptimizedRun.batch_loop.
  destruct (OptimizedRun.analysis_loop_returns floor_pi_pow numbers
              ([], OptimizedRun.stage_counts_init) Hs) as [counts ->].
  cbn [mbind outcome_bind fst app].
  eexists. split.
  - destruct show_stats; [|reflexivity].
    destruct numbers; [by destruct Hcase|reflexivity].
  - apply Forall2_fmap_r, Forall_Forall2_diag, Forall_forall.
    intros n Hn. cbn [fst snd]. split; [done|].
    rewrite OptimizedRun.optimized_prime_check_returns by (by apply Hs).
    by destruct (OptimizedRun.staged_check floor_pi_pow n).
Qed.

(** ** The formula-based generator and its comparison with brute force *)

Module GeneratorRun.
Import PyRange Divisors Outcome Float64 TrialDivision Classifier Dart69Sieve.
Import Generator.

(** The brute-force loop of [compare_methods]:
    [for n in range(min_n, max_n + 1): if is_prime_fast(n): ...append(n)]. *)
Definition brute_force (min_n max_n : Z) : outcome (list Z) :=
  for_each (λ brute_force_primes n,
              is_p ← is_prime_fast n;
              Returns (if is_p : bool then brute_force_primes ++ [n]
                       else brute_force_primes))
           [] (range min_n (max_n + 1)).

Section WithPi.
Variable floor_pi_pow : Z → Z.
(** [formula_time], the time the formula method took *)
Variable formula_time : SpecFloat.spec_float.

(** [compare_methods]: the returned [formula_primes], and, when the range
    is small enough for the brute-force run, whether
    [set(formula_primes) == set(brute_force_primes)].  Of the printing, the
    division [brute_force_time/formula_time] is kept. *)
Definition compare_methods (dimension : Z) : outcome (list Z * option bool) :=
  formula_primes ← generate_primes_by_formula floor_pi_pow dimension true;
  let '(min_n, max_n) := Generator.get_dimension_range floor_pi_pow dimension in
  if max_n - min_n <? 50000 then
    brute_force_primes ← brute_force min_n max_n;
    match formula_time with
    | SpecFloat.S754_zero _ => Raises ZeroDivisionError
    | _ =>
        Returns (formula_primes,
                 Some (bool_decide (list_to_set formula_primes =@{gset Z}
                                    list_to_set brute_force_primes)))
    end
  else Returns (formula_primes, None).

End WithPi.

Lemma allowed_positions_fold l acc :
  foldl (λ allowed pos,
           if pos `mod` 3 =? 0 then
             if bool_decide (pos ∈ [3; 23]) then allowed ++ [pos] else allowed
           else allowed ++ [pos]) acc l =
  acc ++ filter (λ pos, pos `mod` 3 ≠ 0 ∨ pos ∈ [3; 23]) l.
Proof.
  revert acc. induction l as [|pos l IH]; intros acc.
  - cbn. by rewrite app_nil_r.
  - cbn [foldl]. rewrite IH, filter_cons.
    destruct (Z.eqb_spec (pos `mod` 3) 0) as [H3|H3].
    + case_bool_decide as Hin.
      * rewrite decide_True by (by right). by rewrite <- app_assoc.
      * rewrite decide_False; [done|]. intros [?|?]; done.
    + rewrite decide_True by (by left). by rewrite <- app_assoc.
Qed.

Lemma generate_allowed_positions_filter :
  generate_allowed_positions =
  filter (λ pos, pos `mod` 3 ≠ 0 ∨ pos ∈ [3; 23]) (range 0 69).
Proof. unfold generate_allowed_positions. by rewrite allowed_positions_fold. Qed.

Lemma elem_of_generate_allowed_positions pos :
  pos ∈ generate_allowed_positions ↔
  0 ≤ pos < 69 ∧ (pos `mod` 3 ≠ 0 ∨ pos = 3).
Proof.
  rewrite generate_allowed_positions_filter, list_elem_of_filter, elem_of_range.
  rewrite !elem_of_cons, elem_of_nil. split.
  - intros [Hc Hr]. split; [lia|].
    destruct Hc as [?|[->|[->|[]]]]; [by left|by right|by left].
  - intros [Hr Hc]. split; [|lia].
    destruct Hc as [?| ->]; [by left|right; by left].
Qed.

Lemma brute_force_returns min_n max_n :
  (∀ n, min_n ≤ n ≤ max_n → 3 ≤ n → sqrt_exact n) →
  brute_force min_n max_n =
  Returns (filter (λ n, odd_trial_division n = true) (range min_n (max_n + 1))).
Proof.
  intros Hs. unfold brute_force.
  rewrite (for_each_returns _ Generator.keep_prime).
  - f_equal. rewrite Generator.keep_prime_fold. done.
  - intros acc n Hn%elem_of_range. unfold Generator.keep_prime.
    rewrite is_prime_fast_returns; [done|]. apply Hs. lia.
Qed.

(** The position of a prime is allowed unless the prime is 3 or 23 and the
    exceptions are removed. *)
Lemma prime_position_allowed p (late : bool) :
  Z.prime p →
  p `mod` 69 ∈ (if late then filter (λ pos, pos ∉ [3; 23]) generate_allowed_positions
               else generate_allowed_positions) ↔
  (late = true → p ≠ 3 ∧ p ≠ 23).
Proof.
  intros Hp. pose proof Hp as [Hp1 Hdiv].
  pose proof (Z.mod_pos_bound p 69 eq_refl) as Hb.
  assert (p `mod` 3 = 0 → p = 3) as H3.
  { intros Hm. apply Z.mod_divide in Hm; [|done].
    destruct (decide (p = 3)); [done|]. exfalso. apply (Hdiv 3); [|done].
    destruct Hm as [c Hc]. lia. }
  assert (p `mod` 69 = 23 → p = 23) as H23.
  { intros Hm. assert ((p `mod` 69) `mod` 23 = 0) as Hs by (by rewrite Hm).
    apply sector_divisible in Hs; [|by exists 3|done].
    destruct (decide (p = 23)); [done|]. exfalso. apply (Hdiv 23); [|done].
    destruct Hs as [c Hc]. lia. }
  assert ((p `mod` 69) `mod` 3 = p `mod` 3) as Hmm
    by (apply Z.mod_mod_divide; by exists 23).
  destruct late.
  - rewrite list_elem_of_filter, elem_of_generate_allowed_positions, Hmm.
    rewrite !not_elem_of_cons. split.
    + intros [[Hn3 [Hn23 _]] _] _. split; intros ->; by vm_compute in Hn3, Hn23.
    + intros Hne. destruct (Hne eq_refl) as [Hp3 Hp23].
      split; [|split; [done|left; intros ?; by apply Hp3, H3]].
      split; [|split; [|apply not_elem_of_nil]].
      * intros Hm. apply Hp3, H3. by rewrite <- Hmm, Hm.
      * intros Hm. by apply Hp23, H23.
  - rewrite elem_of_generate_allowed_positions, Hmm. split; [done|]. intros _.
    split; [done|]. destruct (decide (p `mod` 3 = 0)) as [Hm|]; [|by left].
    right. by rewrite (H3 Hm).
Qed.

Lemma formula_primes_sorted_exact
    (floor_pi_pow : Z → Z) (dimension : Z) (include_exceptions : bool) :
  (∀ n, (get_dimension_range floor_pi_pow dimension).1 ≤ n ≤
        (get_dimension_range floor_pi_pow dimension).2 → 3 ≤ n → sqrt_exact n) →
  ∃ primes,
    generate_primes_by_formula floor_pi_pow dimension include_exceptions
      = Returns primes ∧
    StronglySorted Z.lt primes ∧
    ∀ x, x ∈ primes ↔
         (get_dimension_range floor_pi_pow dimension).1 ≤ x ≤
         (get_dimension_range floor_pi_pow dimension).2 ∧
         Z.prime x ∧
         (negb include_exceptions || (dimension >? 3) = true → x ≠ 3 ∧ x ≠ 23).
Proof.
  unfold generate_primes_by_formula.
  destruct (get_dimension_range floor_pi_pow dimension) as [min_n max_n].
  cbv zeta. cbn [fst snd]. intros Hs.
  set (late := negb include_exceptions || (dimension >? 3)).
  assert (Forall (λ pos, 0 ≤ pos < 69)
            (if late then filter (λ pos, pos ∉ [3; 23]) generate_allowed_positions
             else generate_allowed_positions) ∧
          NoDup (if late then filter (λ pos, pos ∉ [3; 23]) generate_allowed_positions
                 else generate_allowed_positions)) as [Hall Hnd].
  { destruct late; [apply late_allowed_positions_valid|
                    apply allowed_positions_valid]. }
  eexists. split; [by apply generate_in_range_returns|].
  split; [apply Sieve.StronglySorted_filter_lt, StronglySorted_range|].
  intros x. rewrite list_elem_of_filter, elem_of_range, odd_trial_division_correct.
  split.
  - intros ((Hpos & Hp) & Hr). split; [lia|]. split; [done|].
    by apply (prime_position_allowed x late).
  - intros (Hr & Hp & Hex). split; [|lia]. split; [|done].
    by apply (prime_position_allowed x late).
Qed.

End GeneratorRun.

(** X18: [generate_allowed_positions] returns, in ascending order, the 47
    positions below 69 that are not multiples of 3, together with
    position 3. *)
Theorem allowed_positions_are_non_multiples_of_3 (pos : Z) :
  (pos ∈ Generator.generate_allowed_positions ↔
   0 ≤ pos < 69 ∧ (pos `mod` 3 ≠ 0 ∨ pos = 3)) ∧
  StronglySorted Z.lt Generator.generate_allowed_positions ∧
  length Generator.generate_allowed_positions = 47%nat.
Proof.
  split; [apply GeneratorRun.elem_of_generate_allowed_positions|].
  split; [|by vm_compute].
  rewrite GeneratorRun.generate_allowed_positions_filter.
  apply StronglySorted_filter_lt, StronglySorted_range.
Qed.

(** X19: for a position [pos] in [[0, 69)], the first candidate computed in
    [generate_primes_by_formula] is the least number [≥ min_n] whose
    remainder modulo 69 is [pos]. *)
Theorem first_candidate_is_least (min_n pos c : Z) :
  0 ≤ pos < 69 →
  min_n ≤ Generator.first_candidate min_n pos ∧
  Generator.first_candidate min_n pos `mod` 69 = pos ∧
  (min_n ≤ c → c `mod` 69 = pos → Generator.first_candidate min_n pos ≤ c).
Proof.
  intros Hpos.
  destruct (Generator.first_candidate_spec min_n pos Hpos) as [Hf Hfm].
  split; [lia|]. split; [done|]. intros Hc Hcm.
  pose proof (Z_div_mod_eq_full c 69) as Hcd.
  pose proof (Z_div_mod_eq_full (Generator.first_candidate min_n pos) 69) as Hfd.
  rewrite Hcm in Hcd. rewrite Hfm in Hfd. lia.
Qed.

Lemma first_candidate_is_least_witness :
  0 ≤ 5 < 69 ∧
  32 ≤ Generator.first_candidate 32 5 ∧
  Generator.first_candidate 32 5 `mod` 69 = 5 ∧
  (32 ≤ 143 → 143 `mod` 69 = 5 → Generator.first_candidate 32 5 ≤ 143).
Proof.
  split; [lia|]. apply (first_candidate_is_least 32 5 143). lia.
Defined.

(** X20: without gmpy2, for a dimension whose upper bound is below 2^52,
    [generate_primes_by_formula] returns, in strictly ascending order,
    exactly the primes within the bounds of the dimension; when the
    exceptions are removed ([include_exceptions] false or a dimension
    above 3) the primes 3 and 23 are left out. *)
Theorem generate_primes_by_formula_is_exact
    (floor_pi_pow : Z → Z) (dimension : Z) (include_exceptions : bool) :
  (Generator.get_dimension_range floor_pi_pow dimension).2 < 2 ^ 52 →
  ∃ primes,
    Generator.generate_primes_by_formula floor_pi_pow dimension include_exceptions
      = Returns primes ∧
    StronglySorted Z.lt primes ∧
    ∀ x, x ∈ primes ↔
         (Generator.get_dimension_range floor_pi_pow dimension).1 ≤ x ≤
         (Generator.get_dimension_range floor_pi_pow dimension).2 ∧
         Z.prime x ∧
         (negb include_exceptions || (dimension >? 3) = true → x ≠ 3 ∧ x ≠ 23).
Proof.
  intros Hmax. apply GeneratorRun.formula_primes_sorted_exact.
  intros n ? ?. apply sqrt_exact_small. lia.
Qed.

Lemma generate_primes_by_formula_is_exact_witness :
  (Generator.get_dimension_range Pi.floor_pi_pow_dec 4).2 < 2 ^ 52 ∧
  ∃ primes,
    Generator.generate_primes_by_formula Pi.floor_pi_pow_dec 4 false
      = Returns primes ∧
    StronglySorted Z.lt primes ∧
    ∀ x, x ∈ primes ↔
         (Generator.get_dimension_range Pi.floor_pi_pow_dec 4).1 ≤ x ≤
         (Generator.get_dimension_range Pi.floor_pi_pow_dec 4).2 ∧
         Z.prime x ∧
         (negb false || (4 >? 3) = true → x ≠ 3 ∧ x ≠ 23).
Proof.
  assert ((Generator.get_dimension_range Pi.floor_pi_pow_dec 4).2 < 2 ^ 52) as Hmax
    by (by vm_compute).
  split; [exact Hmax|].
  apply (generate_primes_by_formula_is_exact Pi.floor_pi_pow_dec 4 false Hmax).
Defined.

(** X21: when the range of the dimension is small enough for the
    brute-force run, ends below 2^52 and holds neither 3 nor 23 with the
    exceptions removed (the dimension is at most 3, or its range starts
    above 23), and the formula method took measurable time,
    [compare_methods] finds the formula list and the brute-force list
    identical; the list holds exactly the primes of the range. *)
Theorem compare_methods_finds_identical_results
    (floor_pi_pow : Z → Z) (formula_time : SpecFloat.spec_float)
    (dimension : Z) :
  (Generator.get_dimension_range floor_pi_pow dimension).2 -
  (Generator.get_dimension_range floor_pi_pow dimension).1 < 50000 →
  dimension ≤ 3 ∨ 23 < (Generator.get_dimension_range floor_pi_pow dimension).1 →
  (Generator.get_dimension_range floor_pi_pow dimension).2 < 2 ^ 52 →
  (∀ sign, formula_time ≠ SpecFloat.S754_zero sign) →
  ∃ primes,
    GeneratorRun.compare_methods floor_pi_pow formula_time dimension
      = Returns (primes, Some true) ∧
    GeneratorRun.brute_force
      (Generator.get_dimension_range floor_pi_pow dimension).1
      (Generator.get_dimension_range floor_pi_pow dimension).2
      = Returns primes ∧
    ∀ x, x ∈ primes ↔
         (Generator.get_dimension_range floor_pi_pow dimension).1 ≤ x ≤
         (Generator.get_dimension_range floor_pi_pow dimension).2 ∧ Z.prime x.
Proof.
  intros Hsmall Hcase Hmax Htime.
  assert (∀ n, (Generator.get_dimension_range floor_pi_pow dimension).1 ≤ n ≤
               (Generator.get_dimension_range floor_pi_pow dimension).2 →
               3 ≤ n → sqrt_exact n) as Hs
    by (intros n ? ?; apply sqrt_exact_small; lia).
  destruct (GeneratorRun.formula_primes_sorted_exact floor_pi_pow dimension true Hs)
    as (primes & Hgen & Hsorted & Hel).
  pose proof (GeneratorRun.brute_force_returns _ _ Hs) as Hbrute.
  assert (∀ x, x ∈ primes ↔
               (Generator.get_dimension_range floor_pi_pow dimension).1 ≤ x ≤
               (Generator.get_dimension_range floor_pi_pow dimension).2 ∧
               Z.prime x) as Hprimes.
  { intros x. rewrite Hel. split; [by intros (? & ? & _)|].
    intros [Hr Hp]. split; [done|]. split; [done|]. simpl.
    intros Hlate. destruct Hcase as [Hd|Hm]; [|lia].
    destruct (Z.gtb_spec dimension 3); [lia|done]. }
  assert (primes = filter (λ n, odd_trial_division n = true)
            (range (Generator.get_dimension_range floor_pi_pow dimension).1
                   ((Generator.get_dimension_range floor_pi_pow dimension).2 + 1)))
    as Heq.
  { apply SieveOutput.StronglySorted_lt_unique; [done| |].
    - apply StronglySorted_filter_lt, StronglySorted_range.
    - intros x. rewrite Hprimes, list_elem_of_filter, elem_of_range,
        odd_trial_division_correct.
      split; [intros [? ?]|intros [? ?]]; (split; [lia || done|lia || done]). }
  exists primes. split; [|split; [by rewrite Hbrute, Heq|done]].
  unfold GeneratorRun.compare_methods. rewrite Hgen. cbn [mbind outcome_bind].
  destruct (Generator.get_dimension_range floor_pi_pow dimension) as [min_n max_n].
  cbn [fst snd] in *.
  destruct (Z.ltb_spec (max_n - min_n) 50000); [|lia].
  rewrite Hbrute, <- Heq. cbn [mbind outcome_bind].
  rewrite bool_decide_eq_true_2 by done.
  destruct formula_time; try done. by exfalso; eapply Htime.
Qed.

Lemma compare_methods_finds_identical_results_witness :
  ((Generator.get_dimension_range Pi.floor_pi_pow_dec 4).2 -
   (Generator.get_dimension_range Pi.floor_pi_pow_dec 4).1 < 50000 ∧
   (4 ≤ 3 ∨ 23 < (Generator.get_dimension_range Pi.floor_pi_pow_dec 4).1) ∧
   (Generator.get_dimension_range Pi.floor_pi_pow_dec 4).2 < 2 ^ 52 ∧
   (∀ sign, one_second ≠ SpecFloat.S754_zero sign)) ∧
  ∃ primes,
    GeneratorRun.compare_methods Pi.floor_pi_pow_dec one_second 4
      = Returns (primes, Some true) ∧
    GeneratorRun.brute_force
      (Generator.get_dimension_range Pi.floor_pi_pow_dec 4).1
      (Generator.get_dimension_range Pi.floor_pi_pow_dec 4).2
      = Returns primes ∧
    ∀ x, x ∈ primes ↔
         (Generator.get_dimension_range Pi.floor_pi_pow_dec 4).1 ≤ x ≤
         (Generator.get_dimension_range Pi.floor_pi_pow_dec 4).2 ∧ Z.prime x.
Proof.
  assert ((Generator.get_dimension_range Pi.floor_pi_pow_dec 4).2 -
          (Generator.get_dimension_range Pi.floor_pi_pow_dec 4).1 < 50000) as H1
    by (by vm_compute).
  assert (4 ≤ 3 ∨ 23 < (Generator.get_dimension_range Pi.floor_pi_pow_dec 4).1) as H2
    by (right; by vm_compute).
  assert ((Generator.get_dimension_range Pi.floor_pi_pow_dec 4).2 < 2 ^ 52) as H3
    by (by vm_compute).
  assert (∀ sign, one_second ≠ SpecFloat.S754_zero sign) as H4 by done.
  split; [split; [exact H1|split; [exact H2|split; [exact H3|exact H4]]]|].
  apply (compare_methods_finds_identical_results Pi.floor_pi_pow_dec one_second 4
           H1 H2 H3 H4).
Defined.

(** ** [verify_dart69_sieve] (prime_verification_for_Trinity.py) *)

Module VerifyDart69.
Import PyRange Outcome Float64 TrialDivision Suite.

(** The filter defined inside [verify_dart69_sieve]. *)
Definition dart69_filter (n : Z) : bool :=
  if bool_decide (n ∈ [2; 3; 5]) then true
  else if (n `mod` 2 =? 0) || (n `mod` 3 =? 0) || (n `mod` 5 =? 0) then false
  else if n `mod` 23 =? 0 then false
  else
    let last_digit := n `mod` 10 in
    bool_decide (last_digit ∈ [1; 3; 7; 9]).

(** [[n for n in l if test(n)]] for a test that may raise. *)
Definition comprehension (test : Z → outcome bool) (l : list Z)
    : outcome (list Z) :=
  for_each (λ kept n,
              b ← test n; Returns (if b : bool then kept ++ [n] else kept))
           [] l.

(** [numbers_tested = list(range(start, end + 1))] *)
Definition numbers_tested (start end_ : Z) : list Z := range start (end_ + 1).

(** [[n for n in numbers_tested if dart69_filter(n)]] *)
Definition dart_candidates (start end_ : Z) : list Z :=
  filter (λ n, dart69_filter n = true) (numbers_tested start end_).

(** [[p for p in actual_primes if dart69_filter(p)]] *)
Definition primes_captured (actual_primes : list Z) : list Z :=
  filter (λ p, dart69_filter p = true) actual_primes.

(** The integer entries of the returned dictionary. *)
Record metrics := {
  total_numbers : Z;
  candidates_remaining : Z;
  n_actual_primes : Z;
  n_primes_captured : Z
}.

Section WithPow.
(** [x ** 0.5] on floats *)
Variable pow_half : SpecFloat.spec_float → SpecFloat.spec_float.

(** [[n for n in numbers_tested if self.is_prime(n)]] *)
Definition actual_primes (self : PrimeVerificationSuite) (start end_ : Z)
    : outcome (list Z) :=
  comprehension (is_prime pow_half self) (numbers_tested start end_).

(** [[n for n in dart_candidates if not self.is_prime(n)]] *)
Definition false_positives (self : PrimeVerificationSuite) (start end_ : Z)
    : outcome (list Z) :=
  comprehension (λ n, b ← is_prime pow_half self n; Returns (negb b))
                (dart_candidates start end_).

(** [verify_dart69_sieve]: the elimination rate divides by
    [total_numbers]; the two other rates are guarded against empty lists.
    The floating-point rates and the status text are left out. *)
Definition verify_dart69_sieve (self : PrimeVerificationSuite) (start end_ : Z)
    : outcome metrics :=
  let numbers_tested := numbers_tested start end_ in
  let dart_candidates := dart_candidates start end_ in
  actual_primes ← actual_primes self start end_;
  let total_numbers := Z.of_nat (length numbers_tested) in
  if total_numbers =? 0 then Raises ZeroDivisionError
  else
    let primes_captured := primes_captured actual_primes in
    false_positives ← false_positives self start end_;
    Returns {|
      total_numbers := total_numbers;
      candidates_remaining := Z.of_nat (length dart_candidates);
      n_actual_primes := Z.of_nat (length actual_primes);
      n_primes_captured := Z.of_nat (length primes_captured)
    |}.

End WithPow.


Lemma last_digit_coprime_10 n :
  n `mod` 2 ≠ 0 → n `mod` 5 ≠ 0 → n `mod` 10 ∈ [1; 3; 7; 9].
Proof.
  intros H2 H5.
  pose proof (Z_div_mod_eq_full n 10). pose proof (Z.mod_pos_bound n 10 eq_refl).
  pose proof (Z_div_mod_eq_full n 2). pose proof (Z.mod_pos_bound n 2 eq_refl).
  pose proof (Z_div_mod_eq_full n 5). pose proof (Z.mod_pos_bound n 5 eq_refl).
  rewrite !elem_of_cons, elem_of_nil. lia.
Qed.

Lemma coprime_10_last_digit n :
  n `mod` 10 ∈ [1; 3; 7; 9] → n `mod` 2 ≠ 0 ∧ n `mod` 5 ≠ 0.
Proof.
  rewrite !elem_of_cons, elem_of_nil. intros Hd.
  pose proof (Z_div_mod_eq_full n 10). pose proof (Z.mod_pos_bound n 10 eq_refl).
  pose proof (Z_div_mod_eq_full n 2). pose proof (Z.mod_pos_bound n 2 eq_refl).
  pose proof (Z_div_mod_eq_full n 5). pose proof (Z.mod_pos_bound n 5 eq_refl).
  lia.
Qed.

Lemma verify_filter_true n :
  dart69_filter n = true ↔
  n ∈ [2; 3; 5] ∨
  (n `mod` 2 ≠ 0 ∧ n `mod` 3 ≠ 0 ∧ n `mod` 5 ≠ 0 ∧ n `mod` 23 ≠ 0).
Proof.
  unfold dart69_filter. case_bool_decide as Hsmall; [by split; [left|]|].
  destruct (Z.eqb_spec (n `mod` 2) 0) as [H2|H2]; cbn [orb].
  { split; [done|]. intros [?|(? & _)]; done. }
  destruct (Z.eqb_spec (n `mod` 3) 0) as [H3|H3]; cbn [orb].
  { split; [done|]. intros [?|(_ & ? & _)]; done. }
  destruct (Z.eqb_spec (n `mod` 5) 0) as [H5|H5]; cbn [orb].
  { split; [done|]. intros [?|(_ & _ & ? & _)]; done. }
  destruct (Z.eqb_spec (n `mod` 23) 0) as [H23|H23].
  { split; [done|]. intros [?|(_ & _ & _ & ?)]; done. }
  cbv zeta. rewrite bool_decide_eq_true. split.
  - intros _. right. done.
  - intros _. by apply last_digit_coprime_10.
Qed.

Lemma verify_filter_of_prime p : Z.prime p → dart69_filter p = true ↔ p ≠ 23.
Proof.
  intros Hp. pose proof Hp as [Hp1 Hdiv].
  assert (∀ q, 1 < q → p `mod` q = 0 → p = q) as Hq.
  { intros q Hq Hm. apply Z.mod_divide in Hm; [|lia].
    destruct (decide (p = q)); [done|]. exfalso. apply (Hdiv q); [|done].
    destruct Hm as [c Hc]. assert (0 < c) by nia. nia. }
  rewrite verify_filter_true, !elem_of_cons, elem_of_nil. split.
  - intros [[->|[->|[->|[]]]]|(_ & _ & _ & H23)]; try done.
    intros ->. by apply H23.
  - intros Hne.
    destruct (decide (p `mod` 2 = 0)) as [H2|H2]; [left; left; by apply Hq|].
    destruct (decide (p `mod` 3 = 0)) as [H3|H3]; [left; right; left; by apply Hq|].
    destruct (decide (p `mod` 5 = 0)) as [H5|H5];
      [left; right; right; left; by apply Hq|].
    right. split; [done|]. split; [done|]. split; [done|].
    intros H23. by apply Hne, Hq.
Qed.



End VerifyDart69.

(** X22: the filter inside [verify_dart69_sieve] accepts [n] exactly when
    [n] is 2, 3 or 5 or is divisible by none of 2, 3, 5 and 23 (its
    last-digit test never rejects what is left); among the primes it
    rejects 23 and nothing else. *)
Theorem verification_filter_loses_only_23 (n : Z) :
  (VerifyDart69.dart69_filter n = true ↔
   n ∈ [2; 3; 5] ∨
   (n `mod` 2 ≠ 0 ∧ n `mod` 3 ≠ 0 ∧ n `mod` 5 ≠ 0 ∧ n `mod` 23 ≠ 0)) ∧
  (Z.prime n → VerifyDart69.dart69_filter n = true ↔ n ≠ 23).
Proof.
  split; [apply VerifyDart69.verify_filter_true|].
  apply VerifyDart69.verify_filter_of_prime.
Qed.

(** X23: outside 2, 5 and 23 the filter of the verification suite and
    [DART69Sieve.dart69_filter] agree; at 2 and 5 only the suite's filter
    accepts, at 23 only the sieve's. *)
Theorem verification_filter_against_sieve_filter (n : Z) :
  (n ∉ [2; 5; 23] → VerifyDart69.dart69_filter n = dart69_filter n) ∧
  VerifyDart69.dart69_filter <$> [2; 5; 23] = [true; true; false] ∧
  dart69_filter <$> [2; 5; 23] = [false; false; true].
Proof.
  split; [|by vm_compute]. intros Hn.
  rewrite !not_elem_of_cons in Hn. destruct Hn as (Hn2 & Hn5 & Hn23 & _).
  apply eq_true_iff_eq.
  rewrite VerifyDart69.verify_filter_true, SieveStats.dart69_filter_true.
  split.
  - intros [Hs|(H2 & H3 & H5 & H23)].
    + rewrite !elem_of_cons, elem_of_nil in Hs.
      assert (n = 3) as -> by lia.
      split; [right; left|left; left].
    + split; [by apply VerifyDart69.last_digit_coprime_10|by right].
  - intros [Hd Hc]. apply VerifyDart69.coprime_10_last_digit in Hd as [H2 H5].
    destruct Hc as [Hs|[H3 H23]]; [|by right].
    rewrite !elem_of_cons, elem_of_nil in Hs.
    assert (n = 3) as -> by lia. left. right. left.
Qed.

Module VerifyMetrics.
Import PyRange Outcome Float64 Suite VerifyDart69.






End VerifyMetrics.


(** A range within the bound of the suite, and one beyond it. *)
Lemma verify_dart69_sieve_examples :
  VerifyDart69.verify_dart69_sieve rounded_pow_half (Suite.init 100) 1 50
    = Returns {| VerifyDart69.total_numbers := 50;
                 VerifyDart69.candidates_remaining := 16;
                 VerifyDart69.n_actual_primes := 15;
                 VerifyDart69.n_primes_captured := 14 |} ∧
  VerifyDart69.verify_dart69_sieve rounded_pow_half (Suite.init 10) 20 30
    = Returns {| VerifyDart69.total_numbers := 11;
                 VerifyDart69.candidates_remaining := 1;
                 VerifyDart69.n_actual_primes := 2;
                 VerifyDart69.n_primes_captured := 1 |} ∧
  (∀ pow_half,
     VerifyDart69.verify_dart69_sieve pow_half (Suite.init 10)
       (2 ^ 1024 + 1) (2 ^ 1024 + 1) = Raises OverflowError).
Proof.
  split; [by vm_compute|]. split; [by vm_compute|].
  intros pow_half. unfold VerifyDart69.verify_dart69_sieve,
    VerifyDart69.actual_primes, VerifyDart69.comprehension,
    VerifyDart69.numbers_tested.
  rewrite range_cons, range_nil by lia. cbn [for_each].
  rewrite Suite.is_prime_beyond by (by vm_compute).
  rewrite trial_division_overflow; [done|by vm_compute..].
Qed.
